(** * Billboard Hot 100 scraper: shallow embedding of Tools/update_billboard.py

    Python strings are modelled as lists of Unicode code points ([text]).
    Literals are written as ASCII [string]s and converted with [u].
    Case folding ([str.lower], re.IGNORECASE) and digit classes ([\d],
    [str.isdigit]) are modelled on ASCII only; whitespace follows
    Python's [str.isspace] / [\s]. The HTML tree is the one BeautifulSoup
    hands to the code: tables made of thead / tbody sections and bare rows,
    a row being the [get_text(" ")] of its th/td cells. *)

From Stdlib Require Import List String Ascii NArith ZArith Bool Lia Sorted.
Import ListNotations.
Open Scope N_scope.

(* ------------------------------------------------------------------ *)
(** ** Python text *)

Module PyStr.

Definition text := list N.

Definition u (s : string) : text :=
  map N_of_ascii (list_ascii_of_string s).

(** Python's [str.isspace], which is also what [\s] and [str.split()] use. *)
Definition is_space (c : N) : bool :=
  ((9 <=? c) && (c <=? 13)) || ((28 <=? c) && (c <=? 32))
  || (c =? 133) || (c =? 160) || (c =? 5760)
  || ((8192 <=? c) && (c <=? 8202))
  || (c =? 8232) || (c =? 8233) || (c =? 8239) || (c =? 8287)
  || (c =? 12288).

Definition is_digit (c : N) : bool := (48 <=? c) && (c <=? 57).

(** [str.lower] on ASCII letters. *)
Definition lower_char (c : N) : N :=
  if (65 <=? c) && (c <=? 90) then c + 32 else c.
Definition lower (s : text) : text := map lower_char s.

Fixpoint lstrip_by (p : N -> bool) (s : text) : text :=
  match s with
  | [] => []
  | c :: s' => if p c then lstrip_by p s' else s
  end.

(** [s.strip(chars)] with a membership predicate for [chars]. *)
Definition strip_by (p : N -> bool) (s : text) : text :=
  rev (lstrip_by p (rev (lstrip_by p s))).

(** [re.sub(r"\s+", " ", s)]: every maximal run of white space becomes
    one blank. *)
Fixpoint collapse_ws_aux (in_run : bool) (s : text) : text :=
  match s with
  | [] => []
  | c :: s' =>
      if is_space c then
        if in_run then collapse_ws_aux true s' else 32 :: collapse_ws_aux true s'
      else c :: collapse_ws_aux false s'
  end.
Definition collapse_ws (s : text) : text := collapse_ws_aux false s.

(** [str.split()] without argument: the maximal runs of non-space
    characters. *)
Fixpoint split_ws_aux (cur : text) (s : text) : list text :=
  match s with
  | [] => match cur with [] => [] | _ => [rev cur] end
  | c :: s' =>
      if is_space c then
        match cur with
        | [] => split_ws_aux [] s'
        | _ => rev cur :: split_ws_aux [] s'
        end
      else split_ws_aux (c :: cur) s'
  end.
Definition split_ws (s : text) : list text := split_ws_aux [] s.

Fixpoint is_prefix (p s : text) : bool :=
  match p, s with
  | [], _ => true
  | a :: p', b :: s' => (a =? b) && is_prefix p' s'
  | _ :: _, [] => false
  end.

(** Python's [k in s] on strings. *)
Fixpoint is_infix (k s : text) : bool :=
  is_prefix k s || match s with [] => false | _ :: s' => is_infix k s' end.

Fixpoint text_eqb (a b : text) : bool :=
  match a, b with
  | [], [] => true
  | x :: a', y :: b' => (x =? y) && text_eqb a' b'
  | _, _ => false
  end.

Definition is_digits (s : text) : bool :=
  match s with [] => false | _ => forallb is_digit s end.

(** [int(s)] on a string of ASCII digits. *)
Definition digits_value (s : text) : Z :=
  fold_left (fun acc c => (10 * acc + Z.of_N (c - 48))%Z) s 0%Z.

(** [str(n)] for a non-negative integer, most significant digit first. *)
Fixpoint nat_digits (fuel : nat) (n : Z) (acc : text) : text :=
  match fuel with
  | O => acc
  | S f =>
      let acc' := (Z.to_N (n mod 10) + 48) :: acc in
      if (n <? 10)%Z then acc' else nat_digits f (n / 10)%Z acc'
  end.

(** [str(n)] for a Python [int]. *)
Definition z_to_text (n : Z) : text :=
  if (n <? 0)%Z then 45 :: nat_digits 64 (- n)%Z []
  else nat_digits 64 n [].

(** Zero-padded decimal of width [w] (the [%m], [%d], [%Y] fields of
    [strftime]). *)
Definition pad (w : nat) (n : Z) : text :=
  let s := nat_digits 64 n [] in
  repeat 48 (w - List.length s)%nat ++ s.

(** [norm_text(s)]: NBSP and zero-width space become blanks, then
    [strip()] and [re.sub(r"\s+", " ", s)]. *)
Definition norm_text (s : text) : text :=
  match s with
  | [] => []
  | _ =>
      let s1 := map (fun c => if (c =? 160) || (c =? 8203) then 32 else c) s in
      collapse_ws (strip_by is_space s1)
  end.

End PyStr.

Import PyStr.

(* ------------------------------------------------------------------ *)
(** ** Dates: [try_parse_date] *)

Module Dates.

Definition month_names : list text :=
  map u ["january"; "february"; "march"; "april"; "may"; "june"; "july";
         "august"; "september"; "october"; "november"; "december"]%string.

Fixpoint index_of (x : text) (l : list text) (i : Z) : option Z :=
  match l with
  | [] => None
  | y :: l' => if text_eqb x y then Some i else index_of x l' (i + 1)%Z
  end.

(** The [%B] directive of [_strptime]: a full month name, any case. *)
Definition month_of (tok : text) : option Z := index_of (lower tok) month_names 1%Z.

(** The [%d] directive, [3[01]|[12]\d|0[1-9]|[1-9]| [1-9]], matched against a
    whole space-free token. *)
Definition day_of (tok : text) : option Z :=
  match tok with
  | [a] => if (49 <=? a) && (a <=? 57) then Some (Z.of_N (a - 48)) else None
  | [a; b] =>
      if ((a =? 51) && ((b =? 48) || (b =? 49)))
         || (((a =? 49) || (a =? 50)) && is_digit b)
         || ((a =? 48) && (49 <=? b) && (b <=? 57))
      then Some (Z.of_N (a - 48) * 10 + Z.of_N (b - 48))%Z
      else None
  | _ => None
  end.

(** The [%Y] directive, [\d\d\d\d]. *)
Definition year_of (tok : text) : option Z :=
  if is_digits tok && (List.length tok =? 4)%nat then Some (digits_value tok) else None.

Definition is_leap (y : Z) : bool :=
  (((y mod 4 =? 0) && negb (y mod 100 =? 0)) || (y mod 400 =? 0))%Z.

Definition days_in_month (y m : Z) : Z :=
  match m with
  | 2%Z => if is_leap y then 29 else 28
  | 4%Z | 6%Z | 9%Z | 11%Z => 30
  | _ => 31
  end%Z.

Record date := mkDate { d_year : Z; d_month : Z; d_day : Z }.

(** [datetime.strptime(f"{a} {b} {c}", "%B %d %Y")] for space-free, non-empty
    tokens [a], [b], [c] (every call site passes such tokens). The format
    blanks become [\s+]; the match must consume the whole string; the date
    is then checked by [datetime_date(year, month, day)], which raises for
    year 0 or a day past the month's end. [None] is the raised
    [ValueError]. *)
Definition strptime_BdY (a b c : text) : option date :=
  match month_of a, day_of b, year_of c with
  | Some m, Some d, Some y =>
      if (1 <=? y)%Z && (d <=? days_in_month y m)%Z then Some (mkDate y m d) else None
  | _, _, _ => None
  end.

(** [dt.strftime("%Y-%m-%d")]. *)
Definition strftime_iso (d : date) : text :=
  pad 4 (d_year d) ++ [45] ++ pad 2 (d_month d) ++ [45] ++ pad 2 (d_day d).

(** [re.match(r"(\d{4})-(\d{2})-(\d{2})", t)]: a prefix match. *)
Definition iso_prefix (t : text) : bool :=
  match t with
  | y1 :: y2 :: y3 :: y4 :: h1 :: m1 :: m2 :: h2 :: d1 :: d2 :: _ =>
      forallb is_digit [y1; y2; y3; y4; m1; m2; d1; d2] && (h1 =? 45) && (h2 =? 45)
  | _ => false
  end.

(** [re.sub(r"[.,]", "", t)]. *)
Definition drop_dots_commas (t : text) : text :=
  filter (fun c => negb ((c =? 46) || (c =? 44))) t.

Fixpoint take_while (p : N -> bool) (s : text) : text :=
  match s with [] => [] | c :: s' => if p c then c :: take_while p s' else [] end.
Fixpoint drop_while (p : N -> bool) (s : text) : text :=
  match s with [] => [] | c :: s' => if p c then drop_while p s' else s end.

(** One alternative [name\s+(\d{1,2})] of the month pattern, tried at the
    start of [s], case-insensitively; returns group 1 (as written in [s])
    and group 2. *)
Definition month_day_at (s : text) (name : text) : option (text * text) :=
  let n := List.length name in
  let w := firstn n s in
  if (List.length w =? n)%nat && text_eqb (lower w) name then
    let r := skipn n s in
    let sp := take_while is_space r in
    let r' := skipn (List.length sp) r in
    let ds := firstn 2 (take_while is_digit r') in
    match sp, ds with
    | _ :: _, _ :: _ => Some (w, ds)
    | _, _ => None
    end
  else None.

(** The alternatives at one position, in the order of the pattern. *)
Fixpoint first_alt (s : text) (names : list text) : option (text * text) :=
  match names with
  | [] => None
  | nm :: rest =>
      match month_day_at s nm with
      | Some r => Some r
      | None => first_alt s rest
      end
  end.

(** [re.search(r"(January|...|December)\s+(\d{1,2})", cleaned, re.I)]:
    the leftmost position where the pattern matches. *)
Fixpoint search_month_day (s : text) : option (text * text) :=
  match first_alt s month_names with
  | Some r => Some r
  | None => match s with [] => None | _ :: s' => search_month_day s' end
  end.

(** [try_parse_date(cell_text, year_hint)]. *)
Definition try_parse_date (cell_text : text) (year_hint : Z) : option text :=
  let t := norm_text cell_text in
  match t with
  | [] => None
  | _ =>
    if iso_prefix t then Some t else
    let cleaned := drop_dots_commas t in
    let parts := split_ws cleaned in
    let first_try :=
      match parts with
      | [p0; p1] => strptime_BdY p0 p1 (z_to_text year_hint)
      | [p0; p1; p2] =>
          if is_digits p2 && (List.length p2 =? 4)%nat then strptime_BdY p0 p1 p2 else None
      | _ => None
      end in
    match first_try with
    | Some dt => Some (strftime_iso dt)
    | None =>
        match search_month_day cleaned with
        | Some (month, day) =>
            match strptime_BdY month day (z_to_text year_hint) with
            | Some dt => Some (strftime_iso dt)
            | None => None
            end
        | None => None
        end
    end
  end.

End Dates.
Import Dates.

(* ------------------------------------------------------------------ *)
(** ** Parsed page, header map and row extraction *)

Module Extract.

(** A row is the list of the [get_text(" ")] texts of its th/td cells. *)
Definition row := list text.

(** The children of a [<table>]: [<thead>] / [<tbody>] sections and rows
    placed directly under the table. *)
Inductive part :=
| PHead (rows : list row)
| PBody (rows : list row)
| PRow (r : row).

Record table := mkTable { t_class : option text; t_parts : list part }.

Definition page := list table.

(** [table.find_all("tr")]: every row in document order. *)
Definition all_rows (t : table) : list row :=
  flat_map (fun p => match p with PHead rs | PBody rs => rs | PRow r => [r] end)
           (t_parts t).

(** [table.find("thead")] (its rows) and [table.find("tbody")] (its rows). *)
Fixpoint find_thead (ps : list part) : option (list row) :=
  match ps with
  | [] => None
  | PHead rs :: _ => Some rs
  | _ :: ps' => find_thead ps'
  end.
Fixpoint find_tbody (ps : list part) : option (list row) :=
  match ps with
  | [] => None
  | PBody rs :: _ => Some rs
  | _ :: ps' => find_tbody ps'
  end.

(** [soup.find_all("table", class_=lambda c: c and "wikitable" in c)]. *)
Definition is_wikitable (t : table) : bool :=
  match t_class t with Some c => is_infix (u "wikitable") c | None => false end.

(** The [Dict[str, int]] built by [header_map_from_table]: its only possible
    keys are "date", "song" and "artist". *)
Record hmap := mkHmap { h_date : option nat; h_song : option nat; h_artist : option nat }.

Definition empty_hmap := mkHmap None None None.

Definition date_keys := map u ["issue date"; "date"; "week of"]%string.
Definition song_keys := map u ["song"; "single"; "title"]%string.
Definition artist_keys := map u ["artist(s)"; "artist"]%string.

Definition any_in (ks : list text) (low : text) : bool :=
  existsb (fun k => is_infix k low) ks.

(** One iteration of [for idx, th in enumerate(ths)]. *)
Definition classify (m : hmap) (idx : nat) (cell : text) : hmap :=
  let low := lower (norm_text cell) in
  if any_in date_keys low then mkHmap (Some idx) (h_song m) (h_artist m)
  else if any_in song_keys low then mkHmap (h_date m) (Some idx) (h_artist m)
  else if any_in artist_keys low then mkHmap (h_date m) (h_song m) (Some idx)
  else m.

Fixpoint classify_cells (m : hmap) (idx : nat) (ths : row) : hmap :=
  match ths with
  | [] => m
  | th :: rest => classify_cells (classify m idx th) (S idx) rest
  end.

(** [header_map_from_table(table)]. *)
Definition header_map_from_table (t : table) : hmap :=
  let header_row :=
    match find_thead (t_parts t) with
    | Some (r :: _) => Some r
    | _ => None
    end in
  let header_row :=
    match header_row with
    | Some r => Some r
    | None => hd_error (all_rows t)
    end in
  match header_row with
  | None => empty_hmap
  | Some ths => classify_cells empty_hmap 0 ths
  end.

Record WeekRow := mkWeekRow {
  year : Z;
  issue_date : option text;
  week : option text;
  song : text;
  artist : text;
  source : text;
  row_index : Z }.

(** The characters stripped by [song.strip(...)] and [artist.strip(...)]:
    the curly quotes U+201C and U+201D, the double quote, the apostrophe
    and the blank. *)
Definition is_quote_or_blank (c : N) : bool :=
  (c =? 8220) || (c =? 8221) || (c =? 34) || (c =? 39) || (c =? 32).

(** The body of [for tr in body.find_all("tr")] for one row: [None] is a
    [continue]. The [KeyError] of a missing "song" or "artist" key is caught
    by the same [except] as the [IndexError]. *)
Definition process_row (m : hmap) (yr : Z) (source_url : text) (row_idx : Z)
    (tds : row) : option WeekRow :=
  if (List.length tds <? 2)%nat then None else
  match h_song m, h_artist m with
  | Some si, Some ai =>
      match nth_error tds si, nth_error tds ai with
      | Some song_cell, Some artist_cell =>
          let sng := norm_text song_cell in
          let art := norm_text artist_cell in
          match sng, art with
          | [], _ | _, [] => None
          | _, _ =>
              let issue_iso :=
                match h_date m with
                | Some di =>
                    if (di <? List.length tds)%nat then
                      match nth_error tds di with
                      | Some c => try_parse_date c yr
                      | None => None
                      end
                    else None
                | None => None
                end in
              Some (mkWeekRow yr issue_iso issue_iso
                      (strip_by is_quote_or_blank sng)
                      (strip_by is_quote_or_blank art)
                      source_url row_idx)
          end
      | _, _ => None
      end
  | _, _ => None
  end.

(** The row loop with its counter [row_idx]. *)
Fixpoint walk_rows (m : hmap) (yr : Z) (source_url : text) (row_idx : Z)
    (trs : list row) : list WeekRow :=
  match trs with
  | [] => []
  | tds :: rest =>
      match process_row m yr source_url row_idx tds with
      | Some r => r :: walk_rows m yr source_url (row_idx + 1)%Z rest
      | None => walk_rows m yr source_url row_idx rest
      end
  end.

(** [body = table.find("tbody") or table]; a Tag is always truthy. *)
Definition body_rows (t : table) : list row :=
  match find_tbody (t_parts t) with
  | Some rs => rs
  | None => all_rows t
  end.

Definition hmap_is_empty (m : hmap) : bool :=
  match m with mkHmap None None None => true | _ => false end.

(** One iteration of [for table in tables]. *)
Definition extract_table (yr : Z) (source_url : text) (t : table) : list WeekRow :=
  let m := header_map_from_table t in
  if hmap_is_empty m then [] else
  match h_song m, h_artist m with
  | Some _, Some _ => walk_rows m yr source_url 0 (body_rows t)
  | _, _ => []
  end.

(** [extract_rows_for_year(html, year, source_url)] on the parsed page. *)
Definition extract_rows_for_year (pg : page) (yr : Z) (source_url : text) : list WeekRow :=
  flat_map (extract_table yr source_url) (filter is_wikitable pg).

End Extract.

Import Extract.

(* ------------------------------------------------------------------ *)
(** ** Fetching, per-year files and the main loop *)

Module Run.

Definition WIKI_YEAR_URL_PREFIX : text :=
  u "https://en.wikipedia.org/wiki/List_of_Billboard_Hot_100_number_ones_of_".

(** [WIKI_YEAR_URL.format(year=year)]. *)
Definition wiki_year_url (y : Z) : text := WIKI_YEAR_URL_PREFIX ++ z_to_text y.

Definition RETRY_COUNT : nat := 3.
Definition START_YEAR : Z := 1958.

(** What [requests.get] does at one attempt: a response with its status code
    and its (parsed) text, or a raised exception. *)
Inductive response :=
| Resp (status_code : Z) (body : page)
| RespExc.

(** [fetch_html(url)]: attempts [1 .. RETRY_COUNT]; the first response with
    status 200 is returned; [None] is the exception raised once the attempts
    are used up (the sleeps and log lines have no effect on the result). *)
Fixpoint fetch_attempts (get : nat -> response) (attempt fuel : nat) : option page :=
  match fuel with
  | O => None
  | S f =>
      match get attempt with
      | Resp code body => if (code =? 200)%Z then Some body else fetch_attempts get (S attempt) f
      | RespExc => fetch_attempts get (S attempt) f
      end
  end.
Definition fetch_html (get : nat -> response) : option page :=
  fetch_attempts get 1 RETRY_COUNT.

(** The output directory: the content of [{OUT_DIR}/{year}.json] for each
    year, [None] when the file does not exist. *)
Definition store := Z -> option (list WeekRow).

(** [write_year_json(year, rows)]. *)
Definition write_year_json (st : store) (y : Z) (rows : list WeekRow) : store :=
  fun y' => if (y' =? y)%Z then Some rows else st y'.

(** [scrape_year(year)]: the new store and the returned row count. The
    transport answers each (year, attempt). *)
Definition scrape_year (transport : Z -> nat -> response) (st : store) (y : Z)
    : store * Z :=
  let url := wiki_year_url y in
  match fetch_html (transport y) with
  | Some html =>
      let rows := extract_rows_for_year html y url in
      (write_year_json st y rows, Z.of_nat (List.length rows))
  | None => (write_year_json st y [], 0%Z)
  end.

Section Main.

(** [THIS_YEAR = datetime.utcnow().year]. *)
Variable THIS_YEAR : Z.

(** [range(START_YEAR, THIS_YEAR + 1)]. *)
Definition years : list Z :=
  map (fun k => START_YEAR + Z.of_nat k)%Z
      (seq 0 (Z.to_nat (THIS_YEAR + 1 - START_YEAR))).

(** [combine_all_years()]: the per-year arrays, read in year order and
    concatenated. *)
Definition combine_all_years (st : store) : list WeekRow :=
  flat_map (fun y => match st y with Some arr => arr | None => [] end) years.

Definition scrape_loop (transport : Z -> nat -> response) (st : store) (ys : list Z)
    : store * Z :=
  fold_left (fun acc y =>
               let '(st1, total) := acc in
               let '(st2, n) := scrape_year transport st1 y in
               (st2, (total + n)%Z))
            ys (st, 0%Z).

Record outcome := mkOutcome { exit_code : Z; files : store; combined : list WeekRow }.

(** [main()], from an initial output directory [st0]. *)
Definition main (transport : Z -> nat -> response) (st0 : store) : outcome :=
  let '(st, _) := scrape_loop transport st0 years in
  mkOutcome 0 st (combine_all_years st).

End Main.

(** The array a year's file holds after [scrape_year]. *)
Definition year_rows (transport : Z -> nat -> response) (y : Z) : list WeekRow :=
  match fetch_html (transport y) with
  | Some html => extract_rows_for_year html y (wiki_year_url y)
  | None => []
  end.

End Run.

Import Run.

(* ------------------------------------------------------------------ *)
(** ** Concrete pages and runs used by the examples below *)

Module Fixtures.

Definition wikitable_class : option text := Some (u "wikitable").

(** A cell whose text is wrapped in ASCII double quotes. *)
Definition quoted (s : string) : text := [34] ++ u s ++ [34].

Definition hdr3 : row := [u "Issue date"; u "Song"; u "Artist(s)"].
Definition havana_row : row := [u "January 6, 2018"; quoted "Havana"; u "Camila Cabello"].
Definition perfect_row : row := [u "January 13, 2018"; quoted "Perfect"; u "Ed Sheeran"].
Definition late2017_row : row := [u "December 30, 2017"; quoted "Perfect"; u "Ed Sheeran"].

(** Header and data row both in the tbody, as MediaWiki writes tables. *)
Definition havana_tbody_table : table := mkTable wikitable_class [PBody [hdr3; havana_row]].
(** Header row in a thead, data row in the tbody. *)
Definition havana_thead_table : table := mkTable wikitable_class [PHead [hdr3]; PBody [havana_row]].

Definition dup_table : table :=
  mkTable wikitable_class [PHead [hdr3]; PBody [havana_row; havana_row]].
Definition unsorted_table : table :=
  mkTable wikitable_class [PHead [hdr3]; PBody [perfect_row; havana_row]].
Definition late2017_table : table :=
  mkTable wikitable_class [PHead [hdr3]; PBody [late2017_row]].

(** A table with date and song columns but no artist column. *)
Definition date_song_table : table :=
  mkTable wikitable_class [PHead [[u "Date"; u "Song"]]; PBody [[u "January 6, 2018"; u "Havana"]]].
(** A table with song and artist columns but no date column. *)
Definition song_artist_table : table :=
  mkTable wikitable_class [PHead [[u "Song"; u "Artist"]]; PBody [[u "Havana"; u "Camila Cabello"]]].
(** A data row whose artist cell is empty. *)
Definition empty_artist_table : table :=
  mkTable wikitable_class [PHead [hdr3]; PBody [[u "January 6, 2018"; u "Havana"; []]]].
(** A data row with two cells under a three-column header. *)
Definition short_row_table : table :=
  mkTable wikitable_class [PHead [hdr3]; PBody [[u "January 6, 2018"; u "Havana"]]].

(** A transport under which only the page of [y0] can be fetched. *)
Definition transport_only (y0 : Z) (pg : page) : Z -> nat -> response :=
  fun y _ => if (y =? y0)%Z then Resp 200 pg else RespExc.

Definition empty_store : store := fun _ => None.

Definition url2018 : text := wiki_year_url 2018.

Definition havana_rec (i : Z) : WeekRow :=
  mkWeekRow 2018 (Some (u "2018-01-06")) (Some (u "2018-01-06"))
            (u "Havana") (u "Camila Cabello") url2018 i.
Definition perfect_rec (i : Z) : WeekRow :=
  mkWeekRow 2018 (Some (u "2018-01-13")) (Some (u "2018-01-13"))
            (u "Perfect") (u "Ed Sheeran") url2018 i.
Definition header_rec : WeekRow :=
  mkWeekRow 2018 None None (u "Song") (u "Artist(s)") url2018 0.

(** The identity key of the spec's deduplication policy. *)
Definition dedup_key (r : WeekRow) : option text * text * text :=
  (issue_date r, lower (song r), lower (artist r)).

End Fixtures.

Import Fixtures.

(* ------------------------------------------------------------------ *)
(** ** Predicates used to state further properties of the code *)

Module Shapes.

(** The first element of a text is not in [p] (vacuous when empty). *)
Definition head_not (p : N -> bool) (s : text) : Prop :=
  match s with c :: _ => p c = false | [] => True end.

(** No two consecutive blanks. *)
Fixpoint no_double_blank (s : text) : bool :=
  match s with
  | a :: ((b :: _) as s') => negb ((a =? 32) && (b =? 32)) && no_double_blank s'
  | _ => true
  end.

(** The shape [norm_text] gives: no leading or trailing white space, the
    blank as the only white-space character, no two blanks in a row, and
    no zero-width space. *)
Definition canonical (s : text) : Prop :=
  (forall c, In c s -> is_space c = true -> c = 32) /\
  (forall c, In c s -> c <> 8203) /\
  no_double_blank s = true /\
  head_not is_space s /\ head_not is_space (rev s).

(** The role a header cell gets in [header_map_from_table]: the keyword
    tests in the order of the [if]/[elif] chain. *)
Inductive role := RDate | RSong | RArtist.

Definition header_role (cell : text) : option role :=
  let low := lower (norm_text cell) in
  if any_in date_keys low then Some RDate
  else if any_in song_keys low then Some RSong
  else if any_in artist_keys low then Some RArtist
  else None.

Definition role_index (r : role) (m : hmap) : option nat :=
  match r with RDate => h_date m | RSong => h_song m | RArtist => h_artist m end.

Definition role_eqb (a b : role) : bool :=
  match a, b with
  | RDate, RDate | RSong, RSong | RArtist, RArtist => true
  | _, _ => false
  end.

(** The quote characters among those [song.strip(...)] removes. *)
Definition is_quote (c : N) : bool := (c =? 8220) || (c =? 8221) || (c =? 34) || (c =? 39).

(** An attempt of [fetch_html] that does not return: an exception or a
    status other than 200. *)
Definition attempt_fails (r : response) : Prop :=
  match r with Resp code _ => code <> 200%Z | RespExc => True end.

End Shapes.

Import Shapes.

(* ------------------------------------------------------------------ *)
(** ** Properties of single rows *)

Module RowFacts.

(** The record fields that do not depend on the row's cells. *)
Definition row_props (yr : Z) (src : text) (r : WeekRow) : Prop :=
  year r = yr /\ source r = src /\ week r = issue_date r.

(** The row conditions of the extractor, in terms of the mapped indices. *)
Definition row_accepted (si ai : nat) (tds : row) : Prop :=
  (2 <= List.length tds)%nat /\
  exists sc ac, nth_error tds si = Some sc /\ nth_error tds ai = Some ac /\
                norm_text sc <> [] /\ norm_text ac <> [].

Lemma process_row_props m yr src i tds r :
  process_row m yr src i tds = Some r -> row_props yr src r.
Proof.
  unfold process_row.
  destruct (List.length tds <? 2)%nat; [discriminate|].
  destruct (h_song m) as [si|], (h_artist m) as [ai|]; try discriminate.
  destruct (nth_error tds si), (nth_error tds ai); try discriminate.
  destruct (norm_text t) as [|c s]; [discriminate|].
  destruct (norm_text t0) as [|c' s']; [discriminate|].
  intros H; injection H as <-; repeat split.
Qed.

Lemma process_row_accepts m yr src i tds :
  (exists r, process_row m yr src i tds = Some r) <->
  exists si ai, h_song m = Some si /\ h_artist m = Some ai /\ row_accepted si ai tds.
Proof.
  unfold process_row, row_accepted. split.
  - intros [r Hr].
    destruct (List.length tds <? 2)%nat eqn:Hl; [discriminate|].
    apply Nat.ltb_ge in Hl.
    destruct (h_song m) as [si|], (h_artist m) as [ai|]; try discriminate.
    destruct (nth_error tds si) as [sc|] eqn:Esc, (nth_error tds ai) as [ac|] eqn:Eac;
      try discriminate.
    exists si, ai; repeat split; auto.
    exists sc, ac; repeat split; auto.
    + destruct (norm_text sc); [discriminate|congruence].
    + destruct (norm_text sc), (norm_text ac); try discriminate; congruence.
  - intros (si & ai & Hs & Ha & Hl & sc & ac & Hsc & Hac & Hns & Hna).
    destruct (List.length tds <? 2)%nat eqn:Hlt; [apply Nat.ltb_lt in Hlt; lia|].
    rewrite Hs, Ha, Hsc, Hac.
    destruct (norm_text sc); [congruence|].
    destruct (norm_text ac); [congruence|].
    eexists; reflexivity.
Qed.

Lemma walk_rows_props m yr src i trs r :
  In r (walk_rows m yr src i trs) -> row_props yr src r.
Proof.
  revert i; induction trs as [|tds trs IH]; simpl; intros i H; [contradiction|].
  destruct (process_row m yr src i tds) eqn:E.
  - destruct H as [<- | H]; [eapply process_row_props; eauto | eapply IH; eauto].
  - eapply IH; eauto.
Qed.

Lemma walk_rows_nonempty m yr src i trs :
  walk_rows m yr src i trs <> [] <->
  exists tds, In tds trs /\ exists j r, process_row m yr src j tds = Some r.
Proof.
  revert i; induction trs as [|tds trs IH]; simpl; intros i.
  - split; [congruence | intros (? & [] & _)].
  - destruct (process_row m yr src i tds) eqn:E.
    + split; [intros _; exists tds; split; [left; reflexivity | eauto] | congruence].
    + rewrite IH. split.
      * intros (tds' & Hin & Hp); eauto.
      * intros (tds' & [Heq | Hin] & j & r & Hp); [subst tds' | eauto].
        exfalso.
        assert (Hacc : exists r, process_row m yr src j tds = Some r) by eauto.
        apply process_row_accepts in Hacc.
        apply (process_row_accepts m yr src i) in Hacc as [r' Hr']. congruence.
Qed.

Lemma extract_table_props yr src t r :
  In r (extract_table yr src t) -> row_props yr src r.
Proof.
  unfold extract_table.
  destruct (hmap_is_empty (header_map_from_table t)); [contradiction|].
  destruct (h_song (header_map_from_table t)), (h_artist (header_map_from_table t));
    try contradiction.
  apply walk_rows_props.
Qed.

Lemma extract_rows_props pg yr src r :
  In r (extract_rows_for_year pg yr src) -> row_props yr src r.
Proof.
  unfold extract_rows_for_year. rewrite in_flat_map.
  intros (t & _ & H). eapply extract_table_props; eauto.
Qed.

Lemma year_rows_props tr y r :
  In r (year_rows tr y) -> row_props y (wiki_year_url y) r.
Proof.
  unfold year_rows. destruct (fetch_html (tr y)); [apply extract_rows_props | contradiction].
Qed.

Lemma process_row_no_date m yr src i tds r :
  h_date m = None -> process_row m yr src i tds = Some r -> issue_date r = None.
Proof.
  intros Hd. unfold process_row. rewrite Hd.
  destruct (List.length tds <? 2)%nat; [discriminate|].
  destruct (h_song m), (h_artist m); try discriminate.
  destruct (nth_error tds n), (nth_error tds n0); try discriminate.
  destruct (norm_text t), (norm_text t0); try discriminate.
  intros H; injection H as <-; reflexivity.
Qed.

Lemma walk_rows_no_date m yr src i trs r :
  h_date m = None -> In r (walk_rows m yr src i trs) -> issue_date r = None.
Proof.
  intros Hd. revert i; induction trs as [|tds trs IH]; simpl; intros i H; [contradiction|].
  destruct (process_row m yr src i tds) eqn:E.
  - destruct H as [<- | H]; [eapply process_row_no_date; eauto | eapply IH; eauto].
  - eapply IH; eauto.
Qed.

End RowFacts.

Import RowFacts.

(* ------------------------------------------------------------------ *)
(** ** Properties of the main loop *)

Module RunFacts.

Lemma scrape_year_file tr st y :
  fst (scrape_year tr st y) = write_year_json st y (year_rows tr y).
Proof.
  unfold scrape_year, year_rows. destruct (fetch_html (tr y)); reflexivity.
Qed.

Lemma scrape_loop_aux tr ys st total y :
  fst (fold_left (fun acc y =>
                    let '(st1, total) := acc in
                    let '(st2, n) := scrape_year tr st1 y in
                    (st2, (total + n)%Z))
                 ys (st, total)) y =
  if existsb (Z.eqb y) ys then Some (year_rows tr y) else st y.
Proof.
  revert st total; induction ys as [|y0 ys IH]; intros st total; simpl; [reflexivity|].
  destruct (scrape_year tr st y0) as [st2 n] eqn:E.
  rewrite IH.
  assert (Hst2 : st2 = write_year_json st y0 (year_rows tr y0)).
  { rewrite <- scrape_year_file, E. reflexivity. }
  subst st2. unfold write_year_json.
  destruct (Z.eqb y y0) eqn:Eq; simpl.
  - apply Z.eqb_eq in Eq; subst. destruct (existsb _ ys); reflexivity.
  - reflexivity.
Qed.

Lemma scrape_loop_file tr st ys y :
  fst (scrape_loop tr st ys) y =
  if existsb (Z.eqb y) ys then Some (year_rows tr y) else st y.
Proof. apply scrape_loop_aux. Qed.

Lemma in_years T y : In y (years T) <-> (START_YEAR <= y <= T)%Z.
Proof.
  unfold years. rewrite in_map_iff. split.
  - intros (k & <- & Hk). apply in_seq in Hk. unfold START_YEAR in *. lia.
  - intros H. exists (Z.to_nat (y - START_YEAR)). split.
    + rewrite Z2Nat.id; lia.
    + apply in_seq. unfold START_YEAR in *. lia.
Qed.

Lemma existsb_in y ys : existsb (Z.eqb y) ys = true <-> In y ys.
Proof.
  rewrite existsb_exists. split.
  - intros (x & Hx & E). apply Z.eqb_eq in E. subst. exact Hx.
  - intros H. exists y. split; [exact H | apply Z.eqb_refl].
Qed.

Lemma main_files T tr st0 y :
  files (main T tr st0) y = if existsb (Z.eqb y) (years T) then Some (year_rows tr y) else st0 y.
Proof.
  unfold main. pose proof (scrape_loop_file tr st0 (years T) y) as H.
  destruct (scrape_loop tr st0 (years T)) as [st n]. exact H.
Qed.

Lemma main_combined T tr st0 :
  combined (main T tr st0) = flat_map (year_rows tr) (years T).
Proof.
  assert (Hc : combined (main T tr st0) = combine_all_years T (files (main T tr st0))).
  { unfold main. destruct (scrape_loop tr st0 (years T)); reflexivity. }
  rewrite Hc. unfold combine_all_years.
  rewrite !flat_map_concat_map. f_equal. apply map_ext_in. intros y Hy.
  rewrite main_files. apply existsb_in in Hy. rewrite Hy. reflexivity.
Qed.

Lemma main_exit_code T tr st0 : exit_code (main T tr st0) = 0%Z.
Proof. unfold main. destruct (scrape_loop tr st0 (years T)); reflexivity. Qed.

Lemma combined_props T tr st0 r :
  In r (combined (main T tr st0)) ->
  exists y, In y (years T) /\ row_props y (wiki_year_url y) r.
Proof.
  rewrite main_combined, in_flat_map. intros (y & Hy & Hr).
  exists y. split; [exact Hy | eapply year_rows_props; eauto].
Qed.

Lemma years_strongly_sorted a n :
  StronglySorted Z.le (map (fun k => START_YEAR + Z.of_nat k)%Z (seq a n)).
Proof.
  revert a; induction n as [|n IH]; intros a; cbn [seq map]; constructor; [apply IH|].
  apply Forall_forall. intros x Hx. apply in_map_iff in Hx as (k & <- & Hk).
  apply in_seq in Hk. lia.
Qed.

Lemma strongly_sorted_app (l1 l2 : list Z) :
  StronglySorted Z.le l1 -> StronglySorted Z.le l2 ->
  (forall a b, In a l1 -> In b l2 -> (a <= b)%Z) ->
  StronglySorted Z.le (l1 ++ l2).
Proof.
  induction l1 as [|a l1 IH]; simpl; intros H1 H2 H12; [exact H2|].
  inversion H1 as [|? ? Hs Hf]; subst. constructor.
  - apply IH; auto.
  - apply Forall_app. split; [exact Hf|].
    apply Forall_forall. intros b Hb. apply H12; auto.
Qed.

Lemma flat_map_years_sorted (f : Z -> list WeekRow) (ys : list Z) :
  StronglySorted Z.le ys ->
  (forall y r, In y ys -> In r (f y) -> year r = y) ->
  StronglySorted Z.le (map year (flat_map f ys)).
Proof.
  induction ys as [|y ys IH]; simpl; intros Hs Hf; [constructor|].
  inversion Hs as [|? ? Hs' Hall]; subst.
  rewrite map_app. apply strongly_sorted_app.
  - assert (Hc : forall a, In a (map year (f y)) -> a = y).
    { intros a Ha. apply in_map_iff in Ha as (r & <- & Hr). eauto. }
    clear - Hc. induction (map year (f y)) as [|a l IHl]; constructor.
    + apply IHl. intros; apply Hc; simpl; auto.
    + apply Forall_forall. intros b Hb.
      rewrite (Hc a) by (left; reflexivity). rewrite (Hc b) by (right; exact Hb). lia.
  - apply IH; auto.
  - intros a b Ha Hb.
    apply in_map_iff in Ha as (r & <- & Hr). rewrite (Hf y r) by auto.
    apply in_map_iff in Hb as (r' & <- & Hr'). apply in_flat_map in Hr' as (y' & Hy' & Hr').
    rewrite (Hf y' r') by auto.
    rewrite Forall_forall in Hall. apply Hall, Hy'.
Qed.

Lemma years_nodup a n :
  NoDup (map (fun k => START_YEAR + Z.of_nat k)%Z (seq a n)).
Proof.
  revert a; induction n as [|n IH]; intros a; cbn [seq map]; constructor; [|apply IH].
  intros Hx. apply in_map_iff in Hx as (k & Hk & Hin). apply in_seq in Hin. lia.
Qed.

Lemma filter_one_year (l : list WeekRow) y' y :
  (forall r, In r l -> year r = y') ->
  filter (fun r => (year r =? y)%Z) l = if (y' =? y)%Z then l else [].
Proof.
  induction l as [|r l IH]; intros H; simpl; [destruct (y' =? y)%Z; reflexivity|].
  rewrite (H r (or_introl eq_refl)), IH by (intros; apply H; right; auto).
  destruct (y' =? y)%Z; reflexivity.
Qed.

Lemma filter_year_rows_absent tr ys y :
  ~ In y ys -> filter (fun r => (year r =? y)%Z) (flat_map (year_rows tr) ys) = [].
Proof.
  induction ys as [|y0 ys IH]; simpl; intros Hn; [reflexivity|].
  rewrite filter_app, IH by tauto.
  rewrite (filter_one_year _ y0 y) by (intros r Hr; apply (year_rows_props tr y0 r Hr)).
  destruct (Z.eqb_spec y0 y); [tauto | reflexivity].
Qed.

Lemma filter_year_rows tr ys y :
  NoDup ys -> In y ys ->
  filter (fun r => (year r =? y)%Z) (flat_map (year_rows tr) ys) = year_rows tr y.
Proof.
  induction ys as [|y0 ys IH]; simpl; intros Hnd Hy; [contradiction|].
  inversion Hnd as [|? ? Hn Hnd']; subst.
  rewrite filter_app.
  rewrite (filter_one_year _ y0 y) by (intros r Hr; apply (year_rows_props tr y0 r Hr)).
  destruct (Z.eqb_spec y0 y) as [<- | Hne].
  - rewrite filter_year_rows_absent by exact Hn. apply app_nil_r.
  - destruct Hy as [Hy | Hy]; [congruence|]. apply IH; assumption.
Qed.

End RunFacts.

Import RunFacts.
(* ------------------------------------------------------------------ *)
(** ** The claims *)

Module Claims.

(** C1 (corrected). The merge step does no deduplication: the combined
    dataset is the concatenation, in ascending year order, of every year's
    extracted records, each in table/row traversal order; records with equal
    (issue date, lowercase song, lowercase artist) keys are all kept. *)
Theorem combined_is_concatenation_of_years (T : Z) tr st0 :
  combined (main T tr st0) = flat_map (year_rows tr) (years T).
Proof. apply main_combined. Qed.

(** C1, counterexample: a 2018 page listing the same week twice gives a
    combined dataset with two records that share one deduplication key. *)
Lemma combined_keeps_duplicate_keys :
  combined (main 2018 (transport_only 2018 [dup_table]) empty_store)
    = [havana_rec 0; havana_rec 1]
  /\ dedup_key (havana_rec 0) = dedup_key (havana_rec 1).
Proof. split; vm_compute; reflexivity. Qed.

(** C2 (corrected). The combined dataset is ordered only by the (page) year
    field, ascending: it is the concatenation of the per-year outputs in
    year order, the records of each year are exactly that year's extraction
    in table/row traversal order, and no sort by issue date or song is
    applied. *)
Theorem combined_sorted_by_year_only (T : Z) tr st0 :
  Sorted Z.le (map year (combined (main T tr st0))) /\
  combined (main T tr st0) = flat_map (year_rows tr) (years T) /\
  forall y, In y (years T) ->
    filter (fun r => (year r =? y)%Z) (combined (main T tr st0)) = year_rows tr y.
Proof.
  rewrite main_combined. split; [|split; [reflexivity|]].
  - apply StronglySorted_Sorted. apply flat_map_years_sorted.
    + apply years_strongly_sorted.
    + intros y r _ Hr. apply year_rows_props in Hr. apply Hr.
  - intros y Hy. apply filter_year_rows; [apply years_nodup | exact Hy].
Qed.

Lemma combined_sorted_by_year_only_witness :
  In 2018%Z (years 2018) /\
  filter (fun r => (year r =? 2018)%Z)
         (combined (main 2018 (transport_only 2018 [unsorted_table]) empty_store))
    = year_rows (transport_only 2018 [unsorted_table]) 2018.
Proof.
  assert (Hy : In 2018%Z (years 2018)) by (apply in_years; unfold START_YEAR; lia).
  split; [exact Hy|].
  exact (proj2 (proj2 (combined_sorted_by_year_only 2018%Z (transport_only 2018 [unsorted_table])
                         empty_store)) 2018%Z Hy).
Defined.

(** C2, counterexample: rows listed as January 13 then January 6 stay in
    that order, so the issue-date sequence decreases. *)
Lemma combined_issue_dates_not_sorted :
  combined (main 2018 (transport_only 2018 [unsorted_table]) empty_store)
    = [perfect_rec 0; havana_rec 1].
Proof. vm_compute; reflexivity. Qed.

(** C3 (corrected). A table contributes records exactly when its header map
    has both the song and the artist role and some body row passes the row
    checks; the date role is not required, and without it every record of
    the table has a null issue date. *)
Theorem table_contributes_iff_song_and_artist (yr : Z) (src : text) (t : table) :
  (extract_table yr src t <> [] <->
   exists si ai, h_song (header_map_from_table t) = Some si /\
                 h_artist (header_map_from_table t) = Some ai /\
                 exists tds, In tds (body_rows t) /\ row_accepted si ai tds) /\
  (h_date (header_map_from_table t) = None ->
   forall r, In r (extract_table yr src t) -> issue_date r = None).
Proof.
  split.
  2:{ intros Hd r Hr. unfold extract_table in Hr.
      destruct (hmap_is_empty (header_map_from_table t)); [contradiction|].
      destruct (h_song (header_map_from_table t)), (h_artist (header_map_from_table t));
        try contradiction.
      exact (walk_rows_no_date _ _ _ _ _ _ Hd Hr). }
  unfold extract_table.
  destruct (header_map_from_table t) as [hd hs ha] eqn:Hm; cbn [h_song h_artist].
  assert (Hne : hmap_is_empty (mkHmap hd hs ha) = false \/ hs = None).
  { destruct hd, hs, ha; simpl; auto. }
  destruct hs as [si|], ha as [ai|].
  - destruct Hne as [-> | ?]; [|discriminate].
    rewrite walk_rows_nonempty. split.
    + intros (tds & Hin & j & r & Hr).
      assert (Hacc : exists r, process_row (mkHmap hd (Some si) (Some ai)) yr src j tds = Some r)
        by eauto.
      apply process_row_accepts in Hacc as (si' & ai' & Hs & Ha & Hacc).
      cbn in Hs, Ha. injection Hs as <-. injection Ha as <-.
      exists si, ai. eauto.
    + intros (si' & ai' & Hs & Ha & tds & Hin & Hacc).
      injection Hs as <-. injection Ha as <-.
      exists tds. split; [exact Hin|]. exists 0%Z.
      apply process_row_accepts. exists si, ai. auto.
  - destruct (hmap_is_empty _); split; try congruence;
      intros (? & ? & _ & ? & _); discriminate.
  - destruct (hmap_is_empty _); split; try congruence;
      intros (? & ? & ? & _); discriminate.
  - destruct (hmap_is_empty _); split; try congruence;
      intros (? & ? & ? & _); discriminate.
Qed.

Lemma table_contributes_iff_song_and_artist_witness :
  h_date (header_map_from_table song_artist_table) = None /\
  extract_table 2018 url2018 song_artist_table <> [] /\
  (forall r, In r (extract_table 2018 url2018 song_artist_table) -> issue_date r = None).
Proof.
  assert (Hd : h_date (header_map_from_table song_artist_table) = None)
    by (vm_compute; reflexivity).
  split; [exact Hd|]. split.
  - apply (proj1 (table_contributes_iff_song_and_artist 2018 url2018 song_artist_table)).
    exists 0%nat, 1%nat. split; [reflexivity|]. split; [reflexivity|].
    exists [u "Havana"; u "Camila Cabello"]. split; [left; reflexivity|].
    split; [simpl; lia|].
    exists (u "Havana"), (u "Camila Cabello").
    split; [reflexivity|]. split; [reflexivity|].
    split; vm_compute; discriminate.
  - exact (proj2 (table_contributes_iff_song_and_artist 2018 url2018 song_artist_table) Hd).
Defined.

(** C3, counterexample: a table with date and song columns and a complete
    data row, but no artist column, contributes nothing. *)
Lemma date_song_table_rejected :
  h_date (header_map_from_table date_song_table) = Some 0%nat /\
  h_song (header_map_from_table date_song_table) = Some 1%nat /\
  extract_rows_for_year [date_song_table] 2018 url2018 = [].
Proof. vm_compute; repeat split. Qed.

(** C4 (corrected). A row with at least two cells whose song and artist
    cells exist is dropped exactly when its normalised song text or its
    normalised artist text is empty; an empty artist rejects the row. *)
Theorem row_rejected_iff_song_or_artist_empty m yr src idx tds si ai sc ac :
  h_song m = Some si -> h_artist m = Some ai ->
  (2 <= List.length tds)%nat ->
  nth_error tds si = Some sc -> nth_error tds ai = Some ac ->
  process_row m yr src idx tds = None <-> (norm_text sc = [] \/ norm_text ac = []).
Proof.
  intros Hs Ha Hl Hsc Hac. unfold process_row.
  destruct (List.length tds <? 2)%nat eqn:Hlt; [apply Nat.ltb_lt in Hlt; lia|].
  rewrite Hs, Ha, Hsc, Hac.
  destruct (norm_text sc) as [|c s], (norm_text ac) as [|c' s'];
    split; intros H; auto; try discriminate.
  destruct H; discriminate.
Qed.

Lemma row_rejected_iff_song_or_artist_empty_witness :
  process_row (header_map_from_table empty_artist_table) 2018 url2018 0
    [u "January 6, 2018"; u "Havana"; []] = None.
Proof.
  apply (row_rejected_iff_song_or_artist_empty
           (header_map_from_table empty_artist_table) 2018 url2018 0
           [u "January 6, 2018"; u "Havana"; []] 1 2 (u "Havana") []);
    try reflexivity.
  - simpl; lia.
  - right; reflexivity.
Defined.

(** C4, counterexample: a row whose song is "Havana" but whose artist cell
    is empty yields no record. *)
Lemma empty_artist_row_rejected :
  norm_text (u "Havana") <> [] /\
  extract_rows_for_year [empty_artist_table] 2018 url2018 = [].
Proof. split; vm_compute; [discriminate | reflexivity]. Qed.

(** C5 (code bug). [try_parse_date] meets three of the reference equations
    but returns [None] on "Jan. 6, 2018" for every year hint: the
    abbreviated month is parsed with the full-name directive [%B]. *)
Theorem try_parse_date_reference_values :
  try_parse_date (u "January 6") 2018 = Some (u "2018-01-06") /\
  (forall y, try_parse_date (u "2018-01-06") y = Some (u "2018-01-06")) /\
  try_parse_date (u "not a date") 2018 = None /\
  (forall y, try_parse_date (u "Jan. 6, 2018") y = None).
Proof.
  split; [vm_compute; reflexivity|].
  split; [intros y; reflexivity|].
  split; [vm_compute; reflexivity|].
  intros y; reflexivity.
Qed.

(** C6 (code bug). With the header row inside the tbody (no thead), the
    header row is walked as a data row: the scenario yields a spurious
    record (song "Song", artist "Artist(s)", no date) before the Havana
    record. With the header in a thead, the single expected record comes
    out. *)
Theorem havana_scenario_records :
  extract_rows_for_year [havana_tbody_table] 2018 url2018 = [header_rec; havana_rec 1] /\
  extract_rows_for_year [havana_thead_table] 2018 url2018 = [havana_rec 0].
Proof. split; vm_compute; reflexivity. Qed.

(** C7 (corrected). Every record of the combined dataset carries the year of
    the page it was scraped from, which lies in [START_YEAR, THIS_YEAR], and
    its source is that page's URL; its issue date is not tied to that year. *)
Theorem combined_year_is_page_year (T : Z) tr st0 r :
  In r (combined (main T tr st0)) ->
  (START_YEAR <= year r <= T)%Z /\ source r = wiki_year_url (year r).
Proof.
  intros H. apply combined_props in H as (y & Hy & Hyr & Hsrc & _).
  apply in_years in Hy. subst y. auto.
Qed.

Lemma combined_year_is_page_year_witness :
  In (havana_rec 0) (combined (main 2018 (transport_only 2018 [havana_thead_table]) empty_store)) /\
  (START_YEAR <= year (havana_rec 0) <= 2018)%Z /\
  source (havana_rec 0) = wiki_year_url (year (havana_rec 0)).
Proof.
  assert (H : In (havana_rec 0)
                (combined (main 2018 (transport_only 2018 [havana_thead_table]) empty_store)))
    by (vm_compute; left; reflexivity).
  split; [exact H|].
  exact (combined_year_is_page_year 2018 (transport_only 2018 [havana_thead_table])
           empty_store (havana_rec 0) H).
Defined.

(** C7, counterexample: a December 30, 2017 row on the 2018 page gives a
    combined record with year 2018 and issue date 2017-12-30. *)
Lemma combined_year_differs_from_issue_year :
  combined (main 2018 (transport_only 2018 [late2017_table]) empty_store)
    = [mkWeekRow 2018 (Some (u "2017-12-30")) (Some (u "2017-12-30"))
                 (u "Perfect") (u "Ed Sheeran") url2018 0].
Proof. vm_compute; reflexivity. Qed.

(** C8 (corrected). No positional fallback: a row too short for the song or
    the artist index is dropped; a row too short only for the date index
    still yields a record, with no issue date and no week. *)
Theorem short_row_handling m yr src idx tds si ai :
  h_song m = Some si -> h_artist m = Some ai ->
  ((List.length tds <= si \/ List.length tds <= ai)%nat ->
     process_row m yr src idx tds = None) /\
  (forall di sc ac, h_date m = Some di -> (List.length tds <= di)%nat ->
     (2 <= List.length tds)%nat ->
     nth_error tds si = Some sc -> nth_error tds ai = Some ac ->
     norm_text sc <> [] -> norm_text ac <> [] ->
     exists r, process_row m yr src idx tds = Some r /\
               issue_date r = None /\ week r = None).
Proof.
  intros Hs Ha. unfold process_row. rewrite Hs, Ha. split.
  - intros Hlen. destruct (List.length tds <? 2)%nat; [reflexivity|].
    destruct Hlen as [Hlen | Hlen];
      [rewrite (proj2 (nth_error_None tds si) Hlen)
      | rewrite (proj2 (nth_error_None tds ai) Hlen);
        destruct (nth_error tds si)]; reflexivity.
  - intros di sc ac Hd Hdl Hl Hsc Hac Hns Hna.
    destruct (List.length tds <? 2)%nat eqn:Hlt; [apply Nat.ltb_lt in Hlt; lia|].
    rewrite Hsc, Hac, Hd.
    destruct (di <? List.length tds)%nat eqn:Hdi; [apply Nat.ltb_lt in Hdi; lia|].
    destruct (norm_text sc); [congruence|].
    destruct (norm_text ac); [congruence|].
    eexists; split; [reflexivity | split; reflexivity].
Qed.

Lemma short_row_handling_witness :
  process_row (header_map_from_table short_row_table) 2018 url2018 0
    [u "January 6, 2018"; u "Havana"] = None.
Proof.
  apply (short_row_handling (header_map_from_table short_row_table) 2018 url2018 0
           [u "January 6, 2018"; u "Havana"] 1 2); try reflexivity.
  right; simpl; lia.
Defined.

(** C8, counterexample: a two-cell row under a date/song/artist header is
    dropped instead of taking its artist from a positional default. *)
Lemma short_row_dropped :
  h_artist (header_map_from_table short_row_table) = Some 2%nat /\
  extract_rows_for_year [short_row_table] 2018 url2018 = [].
Proof. split; vm_compute; reflexivity. Qed.

(** C9 (confirmed). When fetching a year fails after the retries, that
    year's file is written as an empty array, [main] still finishes with
    exit code 0, every other year's file holds its extraction, and the
    combined dataset is still built from all years. *)
Theorem fetch_failure_isolated (T : Z) tr st0 y :
  fetch_html (tr y) = None -> In y (years T) ->
  files (main T tr st0) y = Some [] /\
  exit_code (main T tr st0) = 0%Z /\
  (forall y' pg, In y' (years T) -> y' <> y -> fetch_html (tr y') = Some pg ->
     files (main T tr st0) y' = Some (extract_rows_for_year pg y' (wiki_year_url y'))) /\
  combined (main T tr st0) = flat_map (year_rows tr) (years T).
Proof.
  intros Hf Hy. split; [|split; [apply main_exit_code | split; [|apply main_combined]]].
  - rewrite main_files. apply existsb_in in Hy. rewrite Hy.
    unfold year_rows. rewrite Hf. reflexivity.
  - intros y' pg Hy' _ Hpg. rewrite main_files. apply existsb_in in Hy'. rewrite Hy'.
    unfold year_rows. rewrite Hpg. reflexivity.
Qed.

Lemma fetch_failure_isolated_witness :
  fetch_html (transport_only 2018 [havana_thead_table] 1990%Z) = None /\
  In 1990%Z (years 2018) /\
  files (main 2018 (transport_only 2018 [havana_thead_table]) empty_store) 1990%Z = Some [].
Proof.
  assert (Hf : fetch_html (transport_only 2018 [havana_thead_table] 1990%Z) = None)
    by (vm_compute; reflexivity).
  assert (Hy : In 1990%Z (years 2018)) by (apply existsb_in; vm_compute; reflexivity).
  split; [exact Hf|]. split; [exact Hy|].
  exact (proj1 (fetch_failure_isolated 2018 (transport_only 2018 [havana_thead_table])
                  empty_store 1990 Hf Hy)).
Defined.

(** C10 (confirmed). Every record of the combined dataset has [week] equal
    to [issue_date]. *)
Theorem combined_week_equals_issue_date (T : Z) tr st0 r :
  In r (combined (main T tr st0)) -> week r = issue_date r.
Proof.
  intros H. apply combined_props in H as (y & _ & _ & _ & Hw). exact Hw.
Qed.

Lemma combined_week_equals_issue_date_witness :
  In header_rec (combined (main 2018 (transport_only 2018 [havana_tbody_table]) empty_store)) /\
  week header_rec = issue_date header_rec.
Proof.
  assert (H : In header_rec
                (combined (main 2018 (transport_only 2018 [havana_tbody_table]) empty_store)))
    by (vm_compute; left; reflexivity).
  split; [exact H|].
  exact (combined_week_equals_issue_date 2018 (transport_only 2018 [havana_tbody_table])
           empty_store header_rec H).
Defined.

End Claims.

(* ------------------------------------------------------------------ *)
(** ** Facts about stripping and white-space normalisation *)

Module TextFacts.

Lemma lstrip_suffix p s : exists pre, s = pre ++ lstrip_by p s.
Proof.
  induction s as [|c s [pre E]]; simpl; [exists []; reflexivity|].
  destruct (p c); [exists (c :: pre); simpl; congruence | exists []; reflexivity].
Qed.

Lemma lstrip_head p s : head_not p (lstrip_by p s).
Proof.
  induction s as [|c s IH]; simpl; [exact I|].
  destruct (p c) eqn:E; [exact IH | exact E].
Qed.

Lemma lstrip_id p s : head_not p s -> lstrip_by p s = s.
Proof. destruct s as [|c s]; simpl; [reflexivity | intros H; rewrite H; reflexivity]. Qed.

Lemma lstrip_nil_iff p s : lstrip_by p s = [] <-> forall c, In c s -> p c = true.
Proof.
  induction s as [|a s IH]; simpl.
  - split; [intros _ c [] | reflexivity].
  - destruct (p a) eqn:E.
    + rewrite IH. split.
      * intros H c [<- | Hc]; auto.
      * intros H c Hc. apply H. right. exact Hc.
    + split; [discriminate|]. intros H. rewrite (H a (or_introl eq_refl)) in E. discriminate.
Qed.

Lemma strip_infix p s : exists a b, s = a ++ strip_by p s ++ b.
Proof.
  destruct (lstrip_suffix p s) as [pre E1].
  destruct (lstrip_suffix p (rev (lstrip_by p s))) as [pre2 E2].
  exists pre, (rev pre2). unfold strip_by.
  rewrite <- rev_app_distr, <- E2, rev_involutive. exact E1.
Qed.

Lemma strip_ends p s : head_not p (strip_by p s) /\ head_not p (rev (strip_by p s)).
Proof.
  unfold strip_by. rewrite rev_involutive. split; [|apply lstrip_head].
  destruct (lstrip_suffix p (rev (lstrip_by p s))) as [pre2 E2].
  pose proof (lstrip_head p s) as H.
  assert (HL : lstrip_by p s = rev (lstrip_by p (rev (lstrip_by p s))) ++ rev pre2).
  { rewrite <- rev_app_distr, <- E2, rev_involutive. reflexivity. }
  destruct (rev (lstrip_by p (rev (lstrip_by p s)))) as [|c r]; [exact I|].
  rewrite HL in H. exact H.
Qed.

Lemma strip_id p s : head_not p s -> head_not p (rev s) -> strip_by p s = s.
Proof.
  intros H1 H2. unfold strip_by. rewrite (lstrip_id p s H1), (lstrip_id p (rev s) H2).
  apply rev_involutive.
Qed.

Lemma strip_nil_iff p s : strip_by p s = [] <-> forall c, In c s -> p c = true.
Proof.
  rewrite <- lstrip_nil_iff. unfold strip_by.
  pose proof (lstrip_head p s) as H.
  split.
  - intros E. destruct (lstrip_by p s) as [|c r] eqn:L; [reflexivity|].
    exfalso. simpl in H.
    assert (Hall : forall x, In x (rev (c :: r)) -> p x = true).
    { apply lstrip_nil_iff.
      rewrite <- (rev_involutive (lstrip_by p (rev (c :: r)))), E. reflexivity. }
    rewrite (Hall c) in H; [discriminate|]. apply in_rev. rewrite rev_involutive. left; reflexivity.
  - intros E. rewrite E. reflexivity.
Qed.

Lemma in_strip p s c : In c (strip_by p s) -> In c s.
Proof.
  intros H. destruct (strip_infix p s) as (a & b & E). rewrite E.
  apply in_or_app. right. apply in_or_app. left. exact H.
Qed.

Lemma collapse_chars b s c :
  In c (collapse_ws_aux b s) -> c = 32 \/ (In c s /\ is_space c = false).
Proof.
  revert b; induction s as [|d s IH]; simpl; intros b H; [contradiction|].
  destruct (is_space d) eqn:E.
  - destruct b; [destruct (IH _ H) as [? | [? ?]]; auto|].
    destruct H as [<- | H]; auto. destruct (IH _ H) as [? | [? ?]]; auto.
  - destruct H as [<- | H]; auto. destruct (IH _ H) as [? | [? ?]]; auto.
Qed.

Lemma not_space_not_blank c : is_space c = false -> (c =? 32) = false.
Proof. intros H. destruct (N.eqb_spec c 32); [subst; discriminate | reflexivity]. Qed.

Lemma collapse_true_head s : head_not (fun c => c =? 32) (collapse_ws_aux true s).
Proof.
  induction s as [|d s IH]; simpl; [exact I|].
  destruct (is_space d) eqn:E; [exact IH | simpl; apply not_space_not_blank, E].
Qed.

Lemma no_double_blank_cons a s :
  no_double_blank (a :: s) = true <->
  ((a =? 32) = true -> head_not (fun c => c =? 32) s) /\ no_double_blank s = true.
Proof.
  destruct s as [|b s]; simpl; [split; auto|].
  rewrite andb_true_iff, negb_true_iff, andb_false_iff.
  split.
  - intros [[H | H] H']; split; auto; intros Ha; congruence.
  - intros [H H']. split; auto.
    destruct (a =? 32); [right; apply H; reflexivity | left; reflexivity].
Qed.

Lemma collapse_no_double b s : no_double_blank (collapse_ws_aux b s) = true.
Proof.
  revert b; induction s as [|d s IH]; simpl; intros b; [reflexivity|].
  destruct (is_space d) eqn:E.
  - destruct b; [apply IH|].
    apply no_double_blank_cons. split; [intros _; apply collapse_true_head | apply IH].
  - apply no_double_blank_cons. split; [|apply IH].
    rewrite not_space_not_blank by exact E. discriminate.
Qed.

Lemma collapse_snoc b s c :
  is_space c = false -> collapse_ws_aux b (s ++ [c]) = collapse_ws_aux b s ++ [c].
Proof.
  intros Hc. revert b; induction s as [|d s IH]; simpl; intros b.
  - rewrite Hc. reflexivity.
  - destruct (is_space d); [destruct b; simpl; rewrite IH; reflexivity|].
    rewrite IH. reflexivity.
Qed.

Lemma collapse_last b s :
  head_not is_space (rev s) -> head_not is_space (rev (collapse_ws_aux b s)).
Proof.
  intros H. destruct (rev s) as [|c r] eqn:E.
  - apply (f_equal (@rev N)) in E. rewrite rev_involutive in E. subst. exact I.
  - apply (f_equal (@rev N)) in E. rewrite rev_involutive in E. subst s.
    simpl in H. cbn [rev]. rewrite collapse_snoc by exact H. rewrite rev_app_distr. exact H.
Qed.

Lemma collapse_first s :
  head_not is_space s -> head_not is_space (collapse_ws_aux false s).
Proof. destruct s as [|c s]; simpl; [auto | intros H; rewrite H; exact H]. Qed.

Lemma collapse_nil b s : collapse_ws_aux b s = [] -> b = false -> s = [].
Proof.
  intros H ->. destruct s as [|c s]; [reflexivity|]. simpl in H.
  destruct (is_space c); discriminate.
Qed.

Lemma collapse_id b s :
  (forall c, In c s -> is_space c = true -> c = 32) ->
  no_double_blank s = true ->
  (b = true -> head_not is_space s) ->
  collapse_ws_aux b s = s.
Proof.
  revert b; induction s as [|c s IH]; simpl; intros b Hsp Hnd Hb; [reflexivity|].
  apply no_double_blank_cons in Hnd as [Hnd1 Hnd2].
  destruct (is_space c) eqn:E.
  - assert (Hc : c = 32) by (apply Hsp; auto). subst c.
    destruct b; [specialize (Hb eq_refl); simpl in Hb; discriminate|].
    rewrite IH; auto.
    intros _. specialize (Hnd1 eq_refl).
    destruct s as [|d s]; simpl; [exact I|]. simpl in Hnd1.
    destruct (is_space d) eqn:Ed; [|reflexivity].
    rewrite (Hsp d) in Hnd1; [discriminate | right; left; reflexivity | exact Ed].
  - rewrite IH; auto. discriminate.
Qed.

(** The character map of [norm_text]. *)
Lemma in_blanked s c :
  In c (map (fun c => if (c =? 160) || (c =? 8203) then 32 else c) s) ->
  c <> 8203.
Proof.
  rewrite in_map_iff. intros (x & <- & _).
  destruct ((x =? 160) || (x =? 8203)) eqn:E; [discriminate|].
  apply orb_false_iff in E as [_ E]. apply N.eqb_neq, E.
Qed.

Lemma norm_text_canonical s : canonical (norm_text s).
Proof.
  unfold norm_text. destruct s as [|c0 s0] eqn:Es.
  { repeat split; simpl; auto; intros c []. }
  rewrite <- Es. clear c0 s0 Es.
  set (s1 := map _ s). set (t := strip_by is_space s1).
  destruct (strip_ends is_space s1) as [Hh Hl]. fold t in Hh, Hl.
  unfold canonical, collapse_ws. repeat split.
  - intros c Hc Hs. destruct (collapse_chars _ _ _ Hc) as [? | [_ E]]; congruence.
  - intros c Hc. destruct (collapse_chars _ _ _ Hc) as [-> | [Hin _]]; [discriminate|].
    apply (in_blanked s). apply (in_strip is_space). exact Hin.
  - apply collapse_no_double.
  - apply collapse_first, Hh.
  - apply collapse_last, Hl.
Qed.

Lemma canonical_fixed s : canonical s -> norm_text s = s.
Proof.
  intros (Hsp & Hz & Hnd & Hh & Hl). unfold norm_text.
  destruct s as [|c0 s0] eqn:Es; [reflexivity|]. rewrite <- Es in *. clear c0 s0 Es.
  assert (Hmap : map (fun c => if (c =? 160) || (c =? 8203) then 32 else c) s = s).
  { rewrite <- (map_id s) at 2. apply map_ext_in. intros c Hc.
    destruct ((c =? 160) || (c =? 8203)) eqn:E; [|reflexivity].
    apply orb_true_iff in E as [E | E]; apply N.eqb_eq in E; subst c.
    - specialize (Hsp 160 Hc eq_refl). discriminate.
    - exfalso. exact (Hz 8203 Hc eq_refl). }
  rewrite Hmap, strip_id by assumption.
  apply collapse_id; auto; discriminate.
Qed.

Lemma blanked_space c :
  is_space (if (c =? 160) || (c =? 8203) then 32 else c) = true <->
  is_space c = true \/ c = 8203.
Proof.
  destruct (N.eqb_spec c 160); [subst; simpl; tauto|].
  destruct (N.eqb_spec c 8203); [subst; simpl; tauto|].
  simpl. split; [auto | intros [H | H]; [exact H | contradiction]].
Qed.

Lemma norm_text_nil_iff s :
  norm_text s = [] <-> forall c, In c s -> is_space c = true \/ c = 8203.
Proof.
  unfold norm_text. destruct s as [|c0 s0] eqn:Es; [split; [intros _ c [] | reflexivity]|].
  rewrite <- Es. clear c0 s0 Es. split.
  - intros H. apply collapse_nil in H; [|reflexivity].
    rewrite strip_nil_iff in H. intros c Hc. apply blanked_space.
    apply H. apply in_map_iff. eauto.
  - intros H. unfold collapse_ws.
    assert (E : strip_by is_space (map (fun c => if (c =? 160) || (c =? 8203) then 32 else c) s) = []).
    { apply strip_nil_iff. intros c Hc. apply in_map_iff in Hc as (x & <- & Hx).
      apply blanked_space, H, Hx. }
    rewrite E. reflexivity.
Qed.

Lemma no_double_blank_app_r a s : no_double_blank (a ++ s) = true -> no_double_blank s = true.
Proof.
  induction a as [|x a IH]; simpl; [auto|].
  intros H. apply IH. apply no_double_blank_cons in H as [_ H]. exact H.
Qed.

Lemma no_double_blank_app_l s b : no_double_blank (s ++ b) = true -> no_double_blank s = true.
Proof.
  induction s as [|x s IH]; [reflexivity|].
  simpl app. intros H. apply no_double_blank_cons in H as [H1 H2].
  apply no_double_blank_cons. split; [|apply IH, H2].
  intros Hx. specialize (H1 Hx). destruct s; [exact I | exact H1].
Qed.

(** Trimming quotes and blanks from a canonical text keeps it canonical. *)
Lemma strip_quotes_canonical s :
  canonical s ->
  canonical (strip_by is_quote_or_blank s) /\
  head_not is_quote_or_blank (strip_by is_quote_or_blank s) /\
  head_not is_quote_or_blank (rev (strip_by is_quote_or_blank s)).
Proof.
  intros (Hsp & Hz & Hnd & _ & _).
  destruct (strip_ends is_quote_or_blank s) as [Hh Hl].
  destruct (strip_infix is_quote_or_blank s) as (a & b & E).
  set (v := strip_by is_quote_or_blank s) in *.
  assert (Hin : forall c, In c v -> In c s).
  { intros c Hc. rewrite E. apply in_or_app. right. apply in_or_app. left. exact Hc. }
  assert (Hend : forall c, In c v -> is_quote_or_blank c = false -> is_space c = false).
  { intros c Hc Hq. destruct (is_space c) eqn:Hs; [|reflexivity].
    rewrite (Hsp c (Hin c Hc) Hs) in Hq. discriminate. }
  split; [|split; assumption].
  repeat split.
  - intros c Hc. apply Hsp, Hin, Hc.
  - intros c Hc. apply Hz, Hin, Hc.
  - rewrite E in Hnd. apply no_double_blank_app_r in Hnd. apply no_double_blank_app_l in Hnd.
    exact Hnd.
  - destruct v as [|c r]; [exact I|]. apply (Hend c); [left; reflexivity | exact Hh].
  - destruct (rev v) as [|c r] eqn:Ev; [exact I|]. apply (Hend c); [|exact Hl].
    apply in_rev. rewrite Ev. left; reflexivity.
Qed.

End TextFacts.

Import TextFacts.

(* ------------------------------------------------------------------ *)
(** ** Facts about decimal printing and the date parser *)

Module DateFacts.

Lemma digit_char n : is_digit (Z.to_N (n mod 10) + 48) = true.
Proof.
  pose proof (Z.mod_pos_bound n 10 ltac:(lia)).
  unfold is_digit. apply andb_true_iff. split; apply N.leb_le; lia.
Qed.

Lemma nat_digits_digits f n acc :
  (forall c, In c acc -> is_digit c = true) ->
  forall c, In c (nat_digits f n acc) -> is_digit c = true.
Proof.
  revert n acc; induction f as [|f IH]; simpl; intros n acc Hacc; [exact Hacc|].
  assert (Hacc' : forall c, In c ((Z.to_N (n mod 10) + 48) :: acc) -> is_digit c = true).
  { intros c [<- | Hc]; [apply digit_char | apply Hacc, Hc]. }
  destruct (n <? 10)%Z; [exact Hacc' | apply IH, Hacc'].
Qed.

Lemma nat_digits_len_acc f n acc : (List.length acc <= List.length (nat_digits f n acc))%nat.
Proof.
  revert n acc; induction f as [|f IH]; simpl; intros n acc; [lia|].
  destruct (n <? 10)%Z; simpl; [lia|]. specialize (IH (n / 10)%Z ((Z.to_N (n mod 10) + 48) :: acc)).
  simpl in IH. lia.
Qed.

Lemma pow10_succ k : (10 ^ Z.of_nat (S k) = 10 * 10 ^ Z.of_nat k)%Z.
Proof. rewrite Nat2Z.inj_succ, Z.pow_succ_r by lia. reflexivity. Qed.

Lemma pow10_pos k : (0 < 10 ^ Z.of_nat k)%Z.
Proof. apply Z.pow_pos_nonneg; lia. Qed.

Lemma nat_digits_len_upper f k n acc :
  (1 <= k)%nat -> (0 <= n < 10 ^ Z.of_nat k)%Z ->
  (List.length (nat_digits f n acc) <= k + List.length acc)%nat.
Proof.
  revert k n acc; induction f as [|f IH]; simpl; intros k n acc Hk Hn; [lia|].
  destruct (n <? 10)%Z eqn:E; simpl; [lia|].
  apply Z.ltb_ge in E.
  destruct k as [|[|k]]; [lia | simpl in Hn; lia|].
  rewrite pow10_succ in Hn.
  specialize (IH (S k) (n / 10)%Z ((Z.to_N (n mod 10) + 48) :: acc)).
  simpl in IH. assert (H10 : (0 <= n / 10 < 10 ^ Z.of_nat (S k))%Z).
  { split; [apply Z.div_pos; lia | apply Z.div_lt_upper_bound; lia]. }
  specialize (IH ltac:(lia) H10). lia.
Qed.

Lemma nat_digits_len_lower f k n acc :
  (k < f)%nat -> (10 ^ Z.of_nat k <= n)%Z ->
  (k + 1 + List.length acc <= List.length (nat_digits f n acc))%nat.
Proof.
  revert k n acc; induction f as [|f IH]; simpl; intros k n acc Hk Hn; [lia|].
  destruct (n <? 10)%Z eqn:E; simpl.
  - apply Z.ltb_lt in E. destruct k as [|k]; [lia|].
    rewrite pow10_succ in Hn. pose proof (pow10_pos k). lia.
  - apply Z.ltb_ge in E. destruct k as [|k].
    + pose proof (nat_digits_len_acc f (n / 10)%Z ((Z.to_N (n mod 10) + 48) :: acc)).
      simpl in H. lia.
    + rewrite pow10_succ in Hn.
      specialize (IH k (n / 10)%Z ((Z.to_N (n mod 10) + 48) :: acc) ltac:(lia)).
      simpl in IH. assert (H10 : (10 ^ Z.of_nat k <= n / 10)%Z).
      { apply Z.div_le_lower_bound; lia. }
      specialize (IH H10). lia.
Qed.

(** The [%Y] parse of [str(year_hint)] fails for a hint that is not a
    four-digit number. *)
Lemma year_of_hint_out y :
  (y < 1000 \/ 9999 < y)%Z -> year_of (z_to_text y) = None.
Proof.
  intros Hy. unfold year_of, z_to_text.
  destruct (y <? 0)%Z eqn:Hneg; [reflexivity|].
  apply Z.ltb_ge in Hneg.
  assert (Hl : (List.length (nat_digits 64 y []) =? 4)%nat = false).
  { apply Nat.eqb_neq. destruct Hy as [Hy | Hy].
    - pose proof (nat_digits_len_upper 64 3 y [] ltac:(lia)) as H.
      replace (10 ^ Z.of_nat 3)%Z with 1000%Z in H by reflexivity.
      specialize (H ltac:(lia)). change (List.length (@nil N)) with 0%nat in H. lia.
    - pose proof (nat_digits_len_lower 64 4 y [] ltac:(lia)) as H.
      replace (10 ^ Z.of_nat 4)%Z with 10000%Z in H by reflexivity.
      specialize (H ltac:(lia)). change (List.length (@nil N)) with 0%nat in H. lia. }
  rewrite Hl, andb_false_r. reflexivity.
Qed.

Lemma pad_shape w n :
  (1 <= w)%nat -> (0 <= n < 10 ^ Z.of_nat w)%Z ->
  List.length (pad w n) = w /\ forall c, In c (pad w n) -> is_digit c = true.
Proof.
  intros Hw Hn. unfold pad.
  pose proof (nat_digits_len_upper 64 w n [] Hw Hn) as Hl.
  change (List.length (@nil N)) with 0%nat in Hl.
  split.
  - rewrite length_app, repeat_length. lia.
  - intros c Hc. apply in_app_or in Hc as [Hc | Hc].
    + apply repeat_spec in Hc. subst. reflexivity.
    + revert Hc. apply nat_digits_digits. intros _ [].
Qed.

Lemma four_digits l :
  List.length l = 4%nat -> (forall c, In c l -> is_digit c = true) ->
  exists a b c d, l = [a; b; c; d] /\ forallb is_digit [a; b; c; d] = true.
Proof.
  intros Hl Hd. destruct l as [|a [|b [|c [|d [|]]]]]; try discriminate.
  exists a, b, c, d. split; [reflexivity|]. apply forallb_forall. exact Hd.
Qed.

Lemma two_digits l :
  List.length l = 2%nat -> (forall c, In c l -> is_digit c = true) ->
  exists a b, l = [a; b] /\ is_digit a = true /\ is_digit b = true.
Proof.
  intros Hl Hd. destruct l as [|a [|b [|]]]; try discriminate.
  exists a, b. split; [reflexivity|]. split; apply Hd; simpl; auto.
Qed.

Lemma strftime_iso_shape dt :
  (0 <= d_year dt < 10000)%Z -> (0 <= d_month dt < 100)%Z -> (0 <= d_day dt < 100)%Z ->
  iso_prefix (strftime_iso dt) = true.
Proof.
  intros Hy Hm Hd.
  destruct (pad_shape 4 (d_year dt) ltac:(lia) Hy) as [Ly Dy].
  destruct (pad_shape 2 (d_month dt) ltac:(lia) Hm) as [Lm Dm].
  destruct (pad_shape 2 (d_day dt) ltac:(lia) Hd) as [Ld Dd].
  destruct (four_digits _ Ly Dy) as (y1 & y2 & y3 & y4 & Ey & Fy).
  destruct (two_digits _ Lm Dm) as (m1 & m2 & Em & Fm1 & Fm2).
  destruct (two_digits _ Ld Dd) as (e1 & e2 & Ed & Fd1 & Fd2).
  unfold strftime_iso. rewrite Ey, Em, Ed. simpl in Fy |- *.
  rewrite !andb_true_iff in Fy. destruct Fy as (-> & -> & -> & -> & _).
  rewrite Fm1, Fm2, Fd1, Fd2. reflexivity.
Qed.

Lemma index_of_range x l i j :
  index_of x l i = Some j -> (i <= j < i + Z.of_nat (List.length l))%Z.
Proof.
  revert i; induction l as [|y l IH]; simpl; intros i H; [discriminate|].
  destruct (text_eqb x y); [injection H as <-; lia|].
  specialize (IH _ H). lia.
Qed.

Lemma day_of_range b d : day_of b = Some d -> (0 <= d < 100)%Z.
Proof.
  unfold day_of, is_digit. destruct b as [|a [|c [|]]]; try discriminate.
  - destruct ((49 <=? a) && (a <=? 57)) eqn:E; [|discriminate].
    injection 1 as <-. apply andb_true_iff in E as [_ E]. apply N.leb_le in E. lia.
  - destruct (_ || _ || _) eqn:E; [|discriminate]. injection 1 as <-.
    rewrite !orb_true_iff, !andb_true_iff, ?N.eqb_eq, ?N.leb_le, ?orb_true_iff, ?N.eqb_eq in E.
    repeat match type of E with
           | _ \/ _ => destruct E as [E | E]
           | _ /\ _ => destruct E as [? E]
           end;
      repeat match goal with H : _ /\ _ |- _ => destruct H end;
      repeat match goal with H : _ \/ _ |- _ => destruct H end;
      subst; lia.
Qed.

Lemma year_of_range c y : year_of c = Some y -> (0 <= y < 10000)%Z.
Proof.
  unfold year_of. destruct (is_digits c && (List.length c =? 4)%nat) eqn:E; [|discriminate].
  injection 1 as <-. apply andb_true_iff in E as [Hd Hl]. apply Nat.eqb_eq in Hl.
  destruct c as [|a [|b [|e [|g [|]]]]]; try discriminate.
  simpl in Hd. unfold is_digit in Hd. rewrite !andb_true_iff, !N.leb_le in Hd.
  unfold digits_value. cbn [fold_left]. lia.
Qed.

Lemma strptime_iso a b c dt :
  strptime_BdY a b c = Some dt -> iso_prefix (strftime_iso dt) = true.
Proof.
  unfold strptime_BdY.
  destruct (month_of a) as [m|] eqn:Em, (day_of b) as [d|] eqn:Ed, (year_of c) as [y|] eqn:Ey;
    try discriminate.
  destruct ((1 <=? y)%Z && (d <=? days_in_month y m)%Z); [|discriminate].
  injection 1 as <-. apply strftime_iso_shape; simpl.
  - eapply year_of_range; eauto.
  - apply index_of_range in Em. simpl in Em. lia.
  - eapply day_of_range; eauto.
Qed.

End DateFacts.

Import DateFacts.

(* ------------------------------------------------------------------ *)
(** ** Facts about fetching, counting, header maps and row indices *)

Module MoreFacts.

Lemma fetch_attempts_some get a fuel b :
  fetch_attempts get a fuel = Some b <->
  exists k, (a <= k < a + fuel)%nat /\ get k = Resp 200 b /\
            forall k', (a <= k' < k)%nat -> attempt_fails (get k').
Proof.
  revert a; induction fuel as [|fuel IH]; simpl; intros a.
  - split; [discriminate | intros (k & Hk & _); lia].
  - destruct (get a) as [code body|] eqn:Ga.
    + destruct (Z.eqb_spec code 200) as [-> | Hc].
      * split.
        -- intros H. injection H as <-. exists a. split; [lia|]. split; [exact Ga|].
           intros k' Hk'. lia.
        -- intros (k & Hk & Gk & Hf).
           destruct (Nat.eq_dec k a) as [-> | Hne]; [congruence|].
           specialize (Hf a ltac:(lia)). rewrite Ga in Hf. simpl in Hf. congruence.
      * rewrite IH. split.
        -- intros (k & Hk & Gk & Hf). exists k. split; [lia|]. split; [exact Gk|].
           intros k' Hk'. destruct (Nat.eq_dec k' a) as [-> | Hne].
           ++ rewrite Ga. exact Hc.
           ++ apply Hf. lia.
        -- intros (k & Hk & Gk & Hf).
           destruct (Nat.eq_dec k a) as [-> | Hne]; [congruence|].
           exists k. split; [lia|]. split; [exact Gk|]. intros k' Hk'. apply Hf. lia.
    + rewrite IH. split.
      * intros (k & Hk & Gk & Hf). exists k. split; [lia|]. split; [exact Gk|].
        intros k' Hk'. destruct (Nat.eq_dec k' a) as [-> | Hne].
        -- rewrite Ga. exact I.
        -- apply Hf. lia.
      * intros (k & Hk & Gk & Hf).
        destruct (Nat.eq_dec k a) as [-> | Hne]; [congruence|].
        exists k. split; [lia|]. split; [exact Gk|]. intros k' Hk'. apply Hf. lia.
Qed.

Lemma fetch_attempts_none get a fuel :
  fetch_attempts get a fuel = None <->
  forall k, (a <= k < a + fuel)%nat -> attempt_fails (get k).
Proof.
  revert a; induction fuel as [|fuel IH]; simpl; intros a.
  - split; [intros _ k Hk; lia | reflexivity].
  - destruct (get a) as [code body|] eqn:Ga.
    + destruct (Z.eqb_spec code 200) as [-> | Hc].
      * split; [discriminate|]. intros H. specialize (H a ltac:(lia)).
        rewrite Ga in H. simpl in H. congruence.
      * rewrite IH. split.
        -- intros H k Hk. destruct (Nat.eq_dec k a) as [-> | Hne].
           ++ rewrite Ga. exact Hc.
           ++ apply H. lia.
        -- intros H k Hk. apply H. lia.
    + rewrite IH. split.
      * intros H k Hk. destruct (Nat.eq_dec k a) as [-> | Hne].
        -- rewrite Ga. exact I.
        -- apply H. lia.
      * intros H k Hk. apply H. lia.
Qed.

Lemma scrape_year_count tr st y :
  snd (scrape_year tr st y) = Z.of_nat (List.length (year_rows tr y)).
Proof. unfold scrape_year, year_rows. destruct (fetch_html (tr y)); reflexivity. Qed.

Lemma scrape_loop_count_aux tr ys st total :
  snd (fold_left (fun acc y =>
                    let '(st1, total) := acc in
                    let '(st2, n) := scrape_year tr st1 y in
                    (st2, (total + n)%Z))
                 ys (st, total)) =
  (total + Z.of_nat (List.length (flat_map (year_rows tr) ys)))%Z.
Proof.
  revert st total; induction ys as [|y ys IH]; intros st total; simpl; [lia|].
  destruct (scrape_year tr st y) as [st2 n] eqn:E.
  rewrite IH. pose proof (scrape_year_count tr st y) as Hc. rewrite E in Hc. simpl in Hc.
  rewrite length_app. lia.
Qed.

Lemma classify_hit m idx th r :
  header_role th = Some r -> role_index r (classify m idx th) = Some idx.
Proof.
  unfold header_role, classify.
  destruct (any_in date_keys (lower (norm_text th))), (any_in song_keys (lower (norm_text th))),
    (any_in artist_keys (lower (norm_text th)));
    intros H; try discriminate; injection H as <-; reflexivity.
Qed.

Lemma classify_miss m idx th r :
  header_role th <> Some r -> role_index r (classify m idx th) = role_index r m.
Proof.
  unfold header_role, classify.
  destruct (any_in date_keys (lower (norm_text th))), (any_in song_keys (lower (norm_text th))),
    (any_in artist_keys (lower (norm_text th)));
    destruct r; intros H; try reflexivity; congruence.
Qed.

Lemma classify_cells_role r ths m idx i :
  role_index r (classify_cells m idx ths) = Some i <->
  (exists k c, i = (idx + k)%nat /\ nth_error ths k = Some c /\ header_role c = Some r /\
     forall j c', (k < j)%nat -> nth_error ths j = Some c' -> header_role c' <> Some r)
  \/ (role_index r m = Some i /\
      forall j c', nth_error ths j = Some c' -> header_role c' <> Some r).
Proof.
  revert m idx; induction ths as [|th ths IH]; simpl; intros m idx.
  - split.
    + intros H. right. split; [exact H|]. intros [|j] c' Hj; discriminate.
    + intros [(k & c & _ & Hk & _) | [H _]]; [destruct k; discriminate | exact H].
  - rewrite IH.
    destruct (header_role th) as [r0|] eqn:Hr;
      [destruct (role_eqb r r0) eqn:Eq; [assert (r0 = r) by (destruct r, r0; easy); subst r0|]|].
    + rewrite (classify_hit m idx th r Hr). split.
      * intros [(k & c & -> & Hk & Hc & Hl) | [Hi Hn]].
        -- left. exists (S k), c. split; [lia|]. split; [exact Hk|]. split; [exact Hc|].
           intros [|j] c' Hj Hc'; [lia|]. apply (Hl j); auto; lia.
        -- injection Hi as <-. left. exists 0%nat, th. split; [lia|].
           split; [reflexivity|]. split; [exact Hr|].
           intros [|j] c' Hj Hc'; [lia|]. apply (Hn j); auto.
      * intros [(k & c & -> & Hk & Hc & Hl) | [Hi Hn]].
        -- destruct k as [|k].
           ++ right. split; [f_equal; lia|]. intros j c' Hj. apply (Hl (S j)); auto; lia.
           ++ left. exists k, c. split; [lia|]. split; [exact Hk|]. split; [exact Hc|].
              intros j c' Hj. apply (Hl (S j)). lia.
        -- exfalso. apply (Hn 0%nat th); auto.
    + assert (Hne : Some r0 <> Some r) by (intros E; injection E as ->; destruct r; discriminate).
      rewrite (classify_miss m idx th r ltac:(rewrite Hr; exact Hne)). split.
      * intros [(k & c & -> & Hk & Hc & Hl) | [Hi Hn]].
        -- left. exists (S k), c. split; [lia|]. split; [exact Hk|]. split; [exact Hc|].
           intros [|j] c' Hj Hc'; [lia|]. apply (Hl j); auto; lia.
        -- right. split; [exact Hi|]. intros [|j] c' Hj; simpl in Hj; [|apply (Hn j); auto].
           injection Hj as <-. rewrite Hr. exact Hne.
      * intros [(k & c & -> & Hk & Hc & Hl) | [Hi Hn]].
        -- destruct k as [|k]; [simpl in Hk; injection Hk as <-; congruence|].
           left. exists k, c. split; [lia|]. split; [exact Hk|]. split; [exact Hc|].
           intros j c' Hj. apply (Hl (S j)). lia.
        -- right. split; [exact Hi|]. intros j c' Hj. apply (Hn (S j)). exact Hj.
    + assert (Hne : None <> Some r) by discriminate.
      rewrite (classify_miss m idx th r ltac:(rewrite Hr; exact Hne)). split.
      * intros [(k & c & -> & Hk & Hc & Hl) | [Hi Hn]].
        -- left. exists (S k), c. split; [lia|]. split; [exact Hk|]. split; [exact Hc|].
           intros [|j] c' Hj Hc'; [lia|]. apply (Hl j); auto; lia.
        -- right. split; [exact Hi|]. intros [|j] c' Hj; simpl in Hj; [|apply (Hn j); auto].
           injection Hj as <-. rewrite Hr. exact Hne.
      * intros [(k & c & -> & Hk & Hc & Hl) | [Hi Hn]].
        -- destruct k as [|k]; [simpl in Hk; injection Hk as <-; congruence|].
           left. exists k, c. split; [lia|]. split; [exact Hk|]. split; [exact Hc|].
           intros j c' Hj. apply (Hl (S j)). lia.
        -- right. split; [exact Hi|]. intros j c' Hj. apply (Hn (S j)). exact Hj.
Qed.

Lemma process_row_index m yr src i tds r :
  process_row m yr src i tds = Some r -> row_index r = i.
Proof.
  unfold process_row.
  destruct (List.length tds <? 2)%nat; [discriminate|].
  destruct (h_song m), (h_artist m); try discriminate.
  destruct (nth_error tds n), (nth_error tds n0); try discriminate.
  destruct (norm_text t), (norm_text t0); try discriminate.
  intros H; injection H as <-; reflexivity.
Qed.

Lemma walk_rows_indices m yr src i trs :
  map row_index (walk_rows m yr src i trs) =
  map (fun k => (i + Z.of_nat k)%Z) (seq 0 (List.length (walk_rows m yr src i trs))).
Proof.
  revert i; induction trs as [|tds trs IH]; intros i; simpl; [reflexivity|].
  destruct (process_row m yr src i tds) as [r|] eqn:E; [|apply IH].
  simpl. rewrite (process_row_index _ _ _ _ _ _ E), IH.
  f_equal; [lia|]. rewrite <- seq_shift, map_map. apply map_ext. intros k. lia.
Qed.

Lemma walk_rows_length m yr src i trs :
  (List.length (walk_rows m yr src i trs) <= List.length trs)%nat.
Proof.
  revert i; induction trs as [|tds trs IH]; intros i; simpl; [lia|].
  destruct (process_row m yr src i tds); simpl; [specialize (IH (i + 1)%Z) | specialize (IH i)]; lia.
Qed.

Lemma walk_rows_from_process_row m yr src i trs r :
  In r (walk_rows m yr src i trs) ->
  exists i' tds, process_row m yr src i' tds = Some r.
Proof.
  revert i; induction trs as [|tds trs IH]; simpl; intros i Hr; [contradiction|].
  destruct (process_row m yr src i tds) eqn:E; [|exact (IH i Hr)].
  destruct Hr as [<- | Hr]; [eauto | exact (IH _ Hr)].
Qed.

(** Every record of the combined dataset comes from one [process_row]. *)
Lemma combined_from_process_row T tr st0 r :
  In r (combined (main T tr st0)) ->
  exists m yr src i tds, process_row m yr src i tds = Some r.
Proof.
  rewrite main_combined, in_flat_map. intros (y & _ & Hr).
  unfold year_rows in Hr. destruct (fetch_html (tr y)) as [pg|]; [|contradiction].
  unfold extract_rows_for_year in Hr. apply in_flat_map in Hr as (t & _ & Hr).
  unfold extract_table in Hr.
  destruct (hmap_is_empty (header_map_from_table t)); [contradiction|].
  destruct (h_song (header_map_from_table t)), (h_artist (header_map_from_table t));
    try contradiction.
  apply walk_rows_from_process_row in Hr as (i & tds & E). do 5 eexists. exact E.
Qed.

Lemma process_row_text_shape m yr src i tds r :
  process_row m yr src i tds = Some r ->
  exists sc ac, song r = strip_by is_quote_or_blank (norm_text sc) /\
                artist r = strip_by is_quote_or_blank (norm_text ac).
Proof.
  unfold process_row.
  destruct (List.length tds <? 2)%nat; [discriminate|].
  destruct (h_song m), (h_artist m); try discriminate.
  destruct (nth_error tds n) as [sc|], (nth_error tds n0) as [ac|]; try discriminate.
  destruct (norm_text sc) eqn:Es, (norm_text ac) eqn:Ea; try discriminate;
    intros H; injection H as <-; exists sc, ac; rewrite Es, Ea; split; reflexivity.
Qed.

End MoreFacts.

Import MoreFacts.

(* ------------------------------------------------------------------ *)
(** ** Facts about parsed dates and stored fields *)

Module FieldFacts.

Lemma try_parse_date_shape s y d :
  try_parse_date s y = Some d -> iso_prefix d = true.
Proof.
  unfold try_parse_date. destruct (norm_text s) as [|c t]; [discriminate|].
  destruct (iso_prefix (c :: t)) eqn:I; [intros H; injection H as <-; exact I|].
  intros H.
  repeat match goal with
         | Hx : context [match ?x with _ => _ end] |- _ =>
             destruct x eqn:?; cbv beta iota in *
         end;
    try discriminate; injection H as <-; eapply strptime_iso; eassumption.
Qed.

Lemma process_row_issue_date m yr src i tds r d :
  process_row m yr src i tds = Some r -> issue_date r = Some d ->
  exists c, try_parse_date c yr = Some d.
Proof.
  unfold process_row.
  destruct (List.length tds <? 2)%nat; [discriminate|].
  destruct (h_song m), (h_artist m); try discriminate.
  destruct (nth_error tds n), (nth_error tds n0); try discriminate.
  destruct (norm_text t), (norm_text t0); try discriminate.
  intros H; injection H as <-; simpl.
  destruct (h_date m) as [di|]; [|discriminate].
  destruct (di <? List.length tds)%nat; [|discriminate].
  destruct (nth_error tds di) as [c|]; [|discriminate]. eauto.
Qed.

Lemma classify_cells_none r ths m idx :
  role_index r (classify_cells m idx ths) = None <->
  role_index r m = None /\ forall c, In c ths -> header_role c <> Some r.
Proof.
  revert m idx; induction ths as [|th ths IH]; simpl; intros m idx.
  - split; [intros H; split; [exact H | contradiction] | intros [H _]; exact H].
  - rewrite IH. destruct (header_role th) as [r0|] eqn:Hr.
    + destruct (role_eqb r r0) eqn:Eq.
      * assert (r0 = r) by (destruct r, r0; easy). subst r0.
        rewrite (classify_hit m idx th r Hr). split.
        -- intros [H _]. discriminate.
        -- intros [_ H]. exfalso. exact (H th (or_introl eq_refl) Hr).
      * assert (Hne : Some r0 <> Some r) by (intros E; injection E as ->; destruct r; discriminate).
        rewrite (classify_miss m idx th r ltac:(rewrite Hr; exact Hne)). split.
        -- intros [H1 H2]. split; [exact H1|]. intros c [<- | Hc]; [rewrite Hr; exact Hne | auto].
        -- intros [H1 H2]. split; [exact H1|]. intros c Hc. apply H2. right. exact Hc.
    + rewrite (classify_miss m idx th r ltac:(rewrite Hr; discriminate)). split.
      * intros [H1 H2]. split; [exact H1|]. intros c [<- | Hc]; [rewrite Hr; discriminate | auto].
      * intros [H1 H2]. split; [exact H1|]. intros c Hc. apply H2. right. exact Hc.
Qed.

Lemma quotes_canonical s :
  (forall c, In c s -> is_quote c = true) -> canonical s.
Proof.
  intros Hq.
  assert (Hs : forall c, In c s -> is_space c = false).
  { intros c Hc. specialize (Hq c Hc). unfold is_quote in Hq.
    repeat (apply orb_true_iff in Hq as [Hq|Hq]); apply N.eqb_eq in Hq; subst c; reflexivity. }
  assert (Hb : forall c, In c s -> (c =? 32) = false).
  { intros c Hc. apply not_space_not_blank, Hs, Hc. }
  repeat split.
  - intros c Hc Hsp. rewrite (Hs c Hc) in Hsp. discriminate.
  - intros c Hc E. subst c. specialize (Hq 8203 Hc). discriminate.
  - clear Hq Hs. induction s as [|a s IH]; [reflexivity|].
    destruct s as [|b s]; [reflexivity|].
    change (negb ((a =? 32) && (b =? 32)) && no_double_blank (b :: s) = true).
    rewrite (Hb a (or_introl eq_refl)), IH; [reflexivity|].
    intros c Hc. apply Hb. right. exact Hc.
  - destruct s as [|a s]; simpl; [exact I | apply Hs; left; reflexivity].
  - destruct (rev s) as [|a s'] eqn:E; simpl; [exact I|].
    apply Hs. apply in_rev. rewrite E. left. reflexivity.
Qed.

Lemma quotes_stripped s :
  (forall c, In c s -> is_quote c = true) -> strip_by is_quote_or_blank s = [].
Proof.
  intros Hq. apply strip_nil_iff. intros c Hc. specialize (Hq c Hc).
  unfold is_quote in Hq. unfold is_quote_or_blank. rewrite Hq. reflexivity.
Qed.

End FieldFacts.

Import FieldFacts.

(* ------------------------------------------------------------------ *)
(** ** Further properties of the scraper *)

Module Extras.

(** [norm_text] returns a canonical text: its only whitespace character is
    the blank, it holds no zero-width space, no two blanks are adjacent, and
    it neither starts nor ends with whitespace. *)
Theorem norm_text_canonical_form s : canonical (norm_text s).
Proof. apply norm_text_canonical. Qed.

(** [norm_text] is idempotent. *)
Theorem norm_text_idempotent s : norm_text (norm_text s) = norm_text s.
Proof. apply canonical_fixed, norm_text_canonical. Qed.

(** [norm_text s] is empty exactly when every character of [s] is Python
    whitespace or a zero-width space (in particular when [s] is empty). *)
Theorem norm_text_empty_iff_blank s :
  norm_text s = [] <-> forall c, In c s -> is_space c = true \/ c = 8203.
Proof. apply norm_text_nil_iff. Qed.

(** Every date [try_parse_date] returns starts with a [dddd-dd-dd] prefix. *)
Theorem try_parse_date_result_iso_shaped s y d :
  try_parse_date s y = Some d -> iso_prefix d = true.
Proof. apply try_parse_date_shape. Qed.

Lemma try_parse_date_result_iso_shaped_witness :
  try_parse_date (u "Week of January 6") 2018 = Some (u "2018-01-06") /\
  iso_prefix (u "2018-01-06") = true.
Proof.
  split; [vm_compute; reflexivity|].
  apply (try_parse_date_result_iso_shaped (u "Week of January 6") 2018%Z).
  vm_compute. reflexivity.
Defined.

(** [fetch_html] returns the body [b] exactly when some attempt [k] among
    [1 .. RETRY_COUNT] answers status 200 with body [b] and every earlier
    attempt raised or answered another status. *)
Theorem fetch_html_returns_first_200 get b :
  fetch_html get = Some b <->
  exists k, (1 <= k <= RETRY_COUNT)%nat /\ get k = Resp 200 b /\
            forall k', (1 <= k' < k)%nat -> attempt_fails (get k').
Proof.
  unfold fetch_html. rewrite fetch_attempts_some. unfold RETRY_COUNT.
  split; intros (k & Hk & Gk & Hf); exists k; (split; [lia | split; [exact Gk | exact Hf]]).
Qed.

(** [fetch_html] raises exactly when all [RETRY_COUNT] attempts raise or
    answer a status other than 200. *)
Theorem fetch_html_raises_iff_all_fail get :
  fetch_html get = None <->
  forall k, (1 <= k <= RETRY_COUNT)%nat -> attempt_fails (get k).
Proof.
  unfold fetch_html. rewrite fetch_attempts_none. unfold RETRY_COUNT.
  split; intros H k Hk; apply H; lia.
Qed.

(** The [total_rows] that [main] accumulates from the [scrape_year] results
    equals the number of records of the combined dataset. *)
Theorem total_rows_equals_combined_length T tr st0 :
  snd (scrape_loop tr st0 (years T)) = Z.of_nat (List.length (combined (main T tr st0))).
Proof.
  unfold scrape_loop. rewrite scrape_loop_count_aux, main_combined. lia.
Qed.

(** After [main], the file of each year of [START_YEAR .. THIS_YEAR] holds
    exactly that year's extraction, whatever the file held before. *)
Theorem year_file_after_main T tr st0 y :
  (START_YEAR <= y <= T)%Z -> files (main T tr st0) y = Some (year_rows tr y).
Proof.
  intros H. rewrite main_files.
  assert (E : existsb (Z.eqb y) (years T) = true) by (apply existsb_in, in_years, H).
  rewrite E. reflexivity.
Qed.

Lemma year_file_after_main_witness :
  (START_YEAR <= 2018 <= 2020)%Z /\
  files (main 2020 (transport_only 2018 [havana_thead_table]) empty_store) 2018%Z = Some (year_rows (transport_only 2018 [havana_thead_table]) 2018%Z).
Proof.
  split; [unfold START_YEAR; lia|].
  apply (year_file_after_main 2020%Z (transport_only 2018 [havana_thead_table]) empty_store 2018%Z).
  unfold START_YEAR; lia.
Defined.

(** [main] leaves the files of years outside [START_YEAR .. THIS_YEAR] as
    they were. *)
Theorem files_outside_range_untouched T tr st0 y :
  (y < START_YEAR \/ T < y)%Z -> files (main T tr st0) y = st0 y.
Proof.
  intros H. rewrite main_files.
  destruct (existsb (Z.eqb y) (years T)) eqn:E; [|reflexivity].
  apply existsb_in, in_years in E. lia.
Qed.

Lemma files_outside_range_untouched_witness :
  (1957 < START_YEAR \/ 2020 < 1957)%Z /\
  files (main 2020 (transport_only 2018 [havana_thead_table]) empty_store) 1957%Z = empty_store 1957%Z.
Proof.
  split; [unfold START_YEAR; lia|].
  apply (files_outside_range_untouched 2020%Z (transport_only 2018 [havana_thead_table]) empty_store 1957%Z).
  unfold START_YEAR; lia.
Defined.

(** The header map gives a role the index of the LAST header cell of that
    role (later cells overwrite earlier ones), and leaves the role out when
    no header cell has it. *)
Theorem header_map_last_match_wins r ths i :
  (role_index r (classify_cells empty_hmap 0 ths) = Some i <->
   exists c, nth_error ths i = Some c /\ header_role c = Some r /\
     forall j c', (i < j)%nat -> nth_error ths j = Some c' -> header_role c' <> Some r) /\
  (role_index r (classify_cells empty_hmap 0 ths) = None <->
   forall c, In c ths -> header_role c <> Some r).
Proof.
  split.
  - rewrite classify_cells_role. split.
    + intros [(k & c & -> & Hk & Hc & Hl) | [Hi _]]; [eauto | destruct r; discriminate].
    + intros (c & Hc & Hr & Hl). left. exists i, c. auto.
  - rewrite classify_cells_none. split; [intros [_ H]; exact H | intros H; split; [destruct r; reflexivity | exact H]].
Qed.

(** Within one table the records are numbered [0, 1, 2, ...] in order: a
    skipped row does not consume a number. *)
Theorem table_row_indices_consecutive yr src t :
  map row_index (extract_table yr src t) =
  map Z.of_nat (seq 0 (List.length (extract_table yr src t))).
Proof.
  unfold extract_table.
  destruct (hmap_is_empty (header_map_from_table t)); [reflexivity|].
  destruct (h_song (header_map_from_table t)), (h_artist (header_map_from_table t));
    try reflexivity.
  rewrite walk_rows_indices. apply map_ext. intros k. lia.
Qed.

(** A table yields at most one record per row of its body. *)
Theorem table_records_bounded_by_rows yr src t :
  (List.length (extract_table yr src t) <= List.length (body_rows t))%nat.
Proof.
  unfold extract_table.
  destruct (hmap_is_empty (header_map_from_table t)); [simpl; lia|].
  destruct (h_song (header_map_from_table t)), (h_artist (header_map_from_table t));
    try (simpl; lia).
  apply walk_rows_length.
Qed.

(** The song and artist of every record of the combined dataset are
    canonical texts (as [norm_text] makes them) that neither start nor end
    with a quote or a blank. *)
Theorem combined_song_artist_trimmed T tr st0 r :
  In r (combined (main T tr st0)) ->
  (canonical (song r) /\ head_not is_quote_or_blank (song r) /\
   head_not is_quote_or_blank (rev (song r))) /\
  (canonical (artist r) /\ head_not is_quote_or_blank (artist r) /\
   head_not is_quote_or_blank (rev (artist r))).
Proof.
  intros Hr. apply combined_from_process_row in Hr as (m & yr & src & i & tds & E).
  apply process_row_text_shape in E as (sc & ac & -> & ->).
  split; apply strip_quotes_canonical, norm_text_canonical.
Qed.

Lemma combined_song_artist_trimmed_witness :
  In (havana_rec 0) (combined (main 2018 (transport_only 2018 [havana_thead_table]) empty_store)) /\
  ((canonical (song (havana_rec 0)) /\ head_not is_quote_or_blank (song (havana_rec 0)) /\
    head_not is_quote_or_blank (rev (song (havana_rec 0)))) /\
   (canonical (artist (havana_rec 0)) /\ head_not is_quote_or_blank (artist (havana_rec 0)) /\
    head_not is_quote_or_blank (rev (artist (havana_rec 0))))).
Proof.
  assert (H : In (havana_rec 0) (combined (main 2018 (transport_only 2018 [havana_thead_table]) empty_store)))
    by (vm_compute; left; reflexivity).
  split; [exact H|].
  exact (combined_song_artist_trimmed 2018%Z (transport_only 2018 [havana_thead_table]) empty_store (havana_rec 0) H).
Defined.

(** Every issue date stored in the combined dataset starts with a
    [dddd-dd-dd] prefix. *)
Theorem combined_issue_date_iso_shaped T tr st0 r d :
  In r (combined (main T tr st0)) -> issue_date r = Some d -> iso_prefix d = true.
Proof.
  intros Hr Hd. apply combined_from_process_row in Hr as (m & yr & src & i & tds & E).
  destruct (process_row_issue_date _ _ _ _ _ _ _ E Hd) as (c & Hc).
  exact (try_parse_date_shape _ _ _ Hc).
Qed.

Lemma combined_issue_date_iso_shaped_witness :
  In (havana_rec 0) (combined (main 2018 (transport_only 2018 [havana_thead_table]) empty_store)) /\
  issue_date (havana_rec 0) = Some (u "2018-01-06") /\ iso_prefix (u "2018-01-06") = true.
Proof.
  assert (H : In (havana_rec 0)
                (combined (main 2018 (transport_only 2018 [havana_thead_table]) empty_store)))
    by (vm_compute; left; reflexivity).
  split; [exact H|]. split; [reflexivity|].
  exact (combined_issue_date_iso_shaped 2018%Z (transport_only 2018 [havana_thead_table])
           empty_store (havana_rec 0) (u "2018-01-06") H eq_refl).
Defined.

(** A row whose song cell is made only of quote characters (the curly
    quotes, the double quote, the apostrophe) passes the emptiness check
    and yields a record whose song is empty. *)
Theorem quote_only_song_gives_empty_song m yr src i (tds : row) si ai (sc ac : text) :
  (2 <= List.length tds)%nat -> h_song m = Some si -> h_artist m = Some ai ->
  nth_error tds si = Some sc -> nth_error tds ai = Some ac ->
  sc <> [] -> (forall c, In c sc -> is_quote c = true) -> norm_text ac <> [] ->
  exists r, process_row m yr src i tds = Some r /\ song r = [].
Proof.
  intros Hl Hs Ha Hsc Hac Hne Hq Hart.
  assert (Hn : norm_text sc = sc) by (apply canonical_fixed, quotes_canonical, Hq).
  unfold process_row.
  match goal with
  | |- context [(?x <? 2)%nat] =>
      assert (E : (x <? 2)%nat = false) by (apply Nat.ltb_ge; exact Hl); rewrite E
  end.
  rewrite Hs, Ha; cbv beta iota; rewrite Hsc, Hac; cbv beta iota zeta; rewrite Hn.
  destruct sc as [|c0 sc']; [congruence|].
  destruct (norm_text ac) eqn:Ea; [congruence|].
  eexists. split; [reflexivity|]. cbn [song]. apply quotes_stripped, Hq.
Qed.

Lemma quote_only_song_gives_empty_song_witness :
  exists r, process_row (mkHmap None (Some 0%nat) (Some 1%nat)) 2018 url2018 0
              [[8220; 8221]; u "Camila Cabello"] = Some r /\ song r = [].
Proof.
  apply (quote_only_song_gives_empty_song (mkHmap None (Some 0%nat) (Some 1%nat)) 2018%Z url2018
           0%Z [[8220; 8221]; u "Camila Cabello"] 0%nat 1%nat [8220; 8221] (u "Camila Cabello")).
  - simpl. lia.
  - reflexivity.
  - reflexivity.
  - reflexivity.
  - reflexivity.
  - discriminate.
  - intros c Hc. simpl in Hc. destruct Hc as [<- | [<- | []]]; reflexivity.
  - vm_compute. discriminate.
Defined.

End Extras.
